(** * The PSL catalog builder (Catalog/catalog_builder/catalog.py)

    A shallow embedding of the [CatalogBuilder] class: its constructor
    with the single-project filter, [load_catalog] in its two modes and
    [dump_catalog], together with the parts of Python they rest on
    (insertion-ordered dictionaries, [sorted] with a key, [str.upper],
    [os.path.join], and the [json] module's [dumps(indent=4)] and
    [loads]).

    Conventions of the embedding.
    - A Python [str] is a Rocq [string]; a character is a code point
      below 256, and the case mapping is the ASCII one (repository names
      on the hosting service are ASCII).
    - A JSON number is a Python [int], a [Z]; floats are outside the
      embedding and the decoder rejects them.
    - A Python [dict] is an association list in insertion order whose
      keys are pairwise distinct ([od_set] keeps this).
    - An exception is a value of [exn]; the state reached when it is
      raised is kept, as in Python.
    - A project reference is a record: the entries of the registry are
      taken to have its three string fields.
    - Files are a finite map from paths to texts; writing always
      succeeds, reading fails on a path that is not there.
    [write_pages] only hands the catalog to the template engine and is
    not part of the embedding. *)

From Stdlib Require Import ZArith Ascii String DecimalString DecimalFacts DecimalPos DecimalN.
From stdpp Require Import base decidable option list gmap strings sorting.

Local Open Scope string_scope.
Local Open Scope list_scope.

(** ** Python values *)

(** What [json.loads] can return, and what the catalog holds. *)
Unset Elimination Schemes.
Inductive json : Type :=
| JNull
| JBool (b : bool)
| JInt (n : Z)
| JStr (s : string)
| JArr (xs : list json)
| JObj (kvs : list (string * json)).
Set Elimination Schemes.

(** The exceptions the program can raise. *)
Inductive exn : Type :=
| ProjectDoesNotExist (msg : string)
| KeyError (key : string)
| TypeError
| AttributeError
| JSONDecodeError
| OSError (path : string)
| FetchError (msg : string).

Inductive result (A : Type) : Type :=
| Ok (a : A)
| Raise (e : exn).
Arguments Ok {A} a.
Arguments Raise {A} e.

(** ** Insertion-ordered dictionaries *)

Section odict.
Context {V : Type}.

(** [d.get(k)] *)
Fixpoint od_get (k : string) (d : list (string * V)) : option V :=
  match d with
  | [] => None
  | (k', v) :: d' => if decide (k = k') then Some v else od_get k d'
  end.

(** [d[k] = v]: an existing key keeps its position, a new key goes last. *)
Fixpoint od_set (k : string) (v : V) (d : list (string * V)) : list (string * V) :=
  match d with
  | [] => [(k, v)]
  | (k', v') :: d' =>
      if decide (k = k') then (k', v) :: d' else (k', v') :: od_set k v d'
  end.

(** [list(d.keys())] *)
Definition od_keys (d : list (string * V)) : list string := d.*1.
End odict.

(** ** Project references and the builder *)

(** An entry of the registry: [{"org": .., "repo": .., "branch": ..}]. *)
Record project : Type := Project {
  org : string;
  repo : string;
  branch : string
}.

#[global] Instance project_eq_dec : EqDecision project.
Proof. solve_decision. Defined.

(** The attributes of a [CatalogBuilder] instance. *)
Record CatalogBuilder : Type := Builder {
  projects : list project;
  index_dir : string;
  catalog : json;
  repos : gmap string string;
  develop : bool
}.

(** The files and the standard output of the process. *)
Record world : Type := World {
  files : gmap string string;
  stdout : list string
}.

(** [os.path.join(a, b)] (posixpath). *)
Definition starts_with_sep (s : string) : bool :=
  match s with
  | String "/" _ => true
  | _ => false
  end.

Fixpoint ends_with_sep (s : string) : bool :=
  match s with
  | "" => false
  | String c "" => if decide (c = "/"%char) then true else false
  | String _ r => ends_with_sep r
  end.

Definition path_join (a b : string) : string :=
  if starts_with_sep b then b
  else if decide (a = "") then b
  else if ends_with_sep a then a +:+ b
  else a +:+ "/" +:+ b.

(** ** The [json] module: [dumps(obj, indent=4)] *)

Definition dquote : ascii := "034"%char.
Definition backslash : ascii := "092"%char.
Definition newline : ascii := "010"%char.

Definition hex_digit (n : N) : ascii :=
  match n with
  | 0 => "0" | 1 => "1" | 2 => "2" | 3 => "3" | 4 => "4" | 5 => "5"
  | 6 => "6" | 7 => "7" | 8 => "8" | 9 => "9" | 10 => "a" | 11 => "b"
  | 12 => "c" | 13 => "d" | 14 => "e" | _ => "f"
  end%N%char.

(** [ESCAPE_ASCII] with [ESCAPE_DCT]: the quote, the backslash and every
    character outside [' '..'~'] are escaped. *)
Definition escape_char (c : ascii) : string :=
  if Ascii.eqb c dquote then String backslash (String dquote "")
  else if Ascii.eqb c backslash then String backslash (String backslash "")
  else if Ascii.eqb c "010" then String backslash "n"
  else if Ascii.eqb c "013" then String backslash "r"
  else if Ascii.eqb c "009" then String backslash "t"
  else if Ascii.eqb c "008" then String backslash "b"
  else if Ascii.eqb c "012" then String backslash "f"
  else if ((32 <=? N_of_ascii c) && (N_of_ascii c <=? 126))%N then String c ""
  else String backslash
         (String "u" (String "0" (String "0"
           (String (hex_digit (N_of_ascii c / 16))
             (String (hex_digit (N_of_ascii c mod 16)) ""))))).

Fixpoint escape_body (s : string) : string :=
  match s with
  | "" => ""
  | String c r => escape_char c +:+ escape_body r
  end.

(** [py_encode_basestring_ascii] *)
Definition encode_str (s : string) : string :=
  String dquote (escape_body s +:+ String dquote "").

(** [int.__repr__] *)
Definition int_str (n : Z) : string :=
  match n with
  | Z0 => "0"
  | Zpos p => DecimalString.NilEmpty.string_of_uint (Pos.to_uint p)
  | Zneg p => String "-" (DecimalString.NilEmpty.string_of_uint (Pos.to_uint p))
  end.

Fixpoint spaces (n : nat) : string :=
  match n with
  | O => ""
  | S n' => String " " (spaces n')
  end.

(** ['\n' + _indent * _current_indent_level] with [_indent = ' ' * 4]. *)
Definition newline_indent (lvl : nat) : string :=
  String newline (spaces (4 * lvl)).

(** [item_separator + newline_indent] *)
Definition item_sep (lvl : nat) : string := String "," (newline_indent lvl).

(** [_iterencode] at indentation level [lvl]. *)
Fixpoint encode (lvl : nat) (v : json) : string :=
  match v with
  | JNull => "null"
  | JBool true => "true"
  | JBool false => "false"
  | JInt n => int_str n
  | JStr s => encode_str s
  | JArr [] => "[]"
  | JArr xs =>
      "[" +:+ newline_indent (S lvl)
          +:+ String.concat (item_sep (S lvl)) (List.map (encode (S lvl)) xs)
          +:+ newline_indent lvl +:+ "]"
  | JObj [] => "{}"
  | JObj kvs =>
      "{" +:+ newline_indent (S lvl)
          +:+ String.concat (item_sep (S lvl))
               (List.map (fun kv => encode_str (fst kv) +:+ ": " +:+ encode (S lvl) (snd kv)) kvs)
          +:+ newline_indent lvl +:+ "}"
  end.

Definition json_dumps_indent4 (v : json) : string := encode 0 v.

(** ** The [json] module: [loads] *)

Definition is_ws (c : ascii) : bool :=
  Ascii.eqb c " " || Ascii.eqb c "009" || Ascii.eqb c "010" || Ascii.eqb c "013".

Fixpoint skip_ws (s : string) : string :=
  match s with
  | "" => ""
  | String c r => if is_ws c then skip_ws r else s
  end.

Definition hex_val (c : ascii) : option N :=
  let n := N_of_ascii c in
  if ((48 <=? n) && (n <=? 57))%N then Some (n - 48)%N
  else if ((97 <=? n) && (n <=? 102))%N then Some (n - 87)%N
  else if ((65 <=? n) && (n <=? 70))%N then Some (n - 55)%N
  else None.

(** [BACKSLASH] of json.decoder. *)
Definition unescape_simple (e : ascii) : option ascii :=
  if Ascii.eqb e dquote then Some dquote
  else if Ascii.eqb e backslash then Some backslash
  else if Ascii.eqb e "/" then Some "/"%char
  else if Ascii.eqb e "b" then Some "008"%char
  else if Ascii.eqb e "f" then Some "012"%char
  else if Ascii.eqb e "n" then Some "010"%char
  else if Ascii.eqb e "r" then Some "013"%char
  else if Ascii.eqb e "t" then Some "009"%char
  else None.

Definition hex4 (a b c d : ascii) : option N :=
  match hex_val a, hex_val b, hex_val c, hex_val d with
  | Some x, Some y, Some z, Some w => Some (((x * 16 + y) * 16 + z) * 16 + w)%N
  | _, _, _, _ => None
  end.

(** [py_scanstring] in strict mode, from just after the opening quote:
    the decoded string and the text after the closing quote.  An
    escape for a code point of 256 or more is outside the embedding. *)
Fixpoint scanstring (s : string) : option (string * string) :=
  match s with
  | "" => None
  | String c r =>
      if Ascii.eqb c dquote then Some ("", r)
      else if Ascii.eqb c backslash then
        match r with
        | "" => None
        | String e r1 =>
            if Ascii.eqb e "u" then
              match r1 with
              | String h1 (String h2 (String h3 (String h4 r2))) =>
                  match hex4 h1 h2 h3 h4 with
                  | Some n =>
                      if (n <? 256)%N then
                        match scanstring r2 with
                        | Some (t, r3) => Some (String (ascii_of_N n) t, r3)
                        | None => None
                        end
                      else None
                  | None => None
                  end
              | _ => None
              end
            else
              match unescape_simple e with
              | Some ch =>
                  match scanstring r1 with
                  | Some (t, r3) => Some (String ch t, r3)
                  | None => None
                  end
              | None => None
              end
        end
      else if (N_of_ascii c <? 32)%N then None
      else
        match scanstring r with
        | Some (t, r3) => Some (String c t, r3)
        | None => None
        end
  end.

Definition digit_of (c : ascii) : option (Decimal.uint -> Decimal.uint) :=
  if Ascii.eqb c "0" then Some Decimal.D0
  else if Ascii.eqb c "1" then Some Decimal.D1
  else if Ascii.eqb c "2" then Some Decimal.D2
  else if Ascii.eqb c "3" then Some Decimal.D3
  else if Ascii.eqb c "4" then Some Decimal.D4
  else if Ascii.eqb c "5" then Some Decimal.D5
  else if Ascii.eqb c "6" then Some Decimal.D6
  else if Ascii.eqb c "7" then Some Decimal.D7
  else if Ascii.eqb c "8" then Some Decimal.D8
  else if Ascii.eqb c "9" then Some Decimal.D9
  else None.

(** The longest run of decimal digits at the head of [s]. *)
Fixpoint scan_digits (s : string) : Decimal.uint * string :=
  match s with
  | "" => (Decimal.Nil, "")
  | String c r =>
      match digit_of c with
      | Some dc => let '(d, r') := scan_digits r in (dc d, r')
      | None => (Decimal.Nil, s)
      end
  end.

Definition float_follows (s : string) : bool :=
  match s with
  | String c _ => Ascii.eqb c "." || Ascii.eqb c "e" || Ascii.eqb c "E"
  | "" => false
  end.

(** [NUMBER_RE] restricted to integers: an optional minus sign, then
    a single zero or a nonzero digit followed by digits.  A
    fraction or an exponent makes a float, and a digit after a leading
    zero is an error: both give [None]. *)
Definition parse_unsigned (s : string) : option (N * string) :=
  match scan_digits s with
  | (Decimal.Nil, _) => None
  | (Decimal.D0 Decimal.Nil, r) => if float_follows r then None else Some (0%N, r)
  | (Decimal.D0 _, _) => None
  | (d, r) => if float_follows r then None else Some (N.of_uint d, r)
  end.

Definition parse_number (s : string) : option (json * string) :=
  match s with
  | "" => None
  | String c r =>
      if Ascii.eqb c "-" then
        match parse_unsigned r with
        | Some (n, r') => Some (JInt (- Z.of_N n), r')
        | None => None
        end
      else
        match parse_unsigned s with
        | Some (n, r') => Some (JInt (Z.of_N n), r')
        | None => None
        end
  end.

(** [dict(pairs)] *)
Definition dict_of_pairs (pairs : list (string * json)) : list (string * json) :=
  foldl (fun d kv => od_set (fst kv) (snd kv) d) [] pairs.

(** [scan_once], [JSONArray] and [JSONObject].  [fuel] bounds the
    number of nested and successive calls; [json_loads] gives more than
    the text can use. *)
Fixpoint parse_value (fuel : nat) (s : string) : option (json * string) :=
  match fuel with
  | O => None
  | S f =>
      match s with
      | "" => None
      | String c r =>
          if Ascii.eqb c dquote then
            match scanstring r with
            | Some (t, r') => Some (JStr t, r')
            | None => None
            end
          else if Ascii.eqb c "{" then
            match skip_ws r with
            | "" => None
            | String c1 r1 =>
                if Ascii.eqb c1 "}" then Some (JObj [], r1)
                else
                  match parse_members f (String c1 r1) with
                  | Some (pairs, r') => Some (JObj (dict_of_pairs pairs), r')
                  | None => None
                  end
            end
          else if Ascii.eqb c "[" then
            match skip_ws r with
            | "" => None
            | String c1 r1 =>
                if Ascii.eqb c1 "]" then Some (JArr [], r1)
                else
                  match parse_elems f (String c1 r1) with
                  | Some (xs, r') => Some (JArr xs, r')
                  | None => None
                  end
            end
          else if Ascii.eqb c "n" then
            match r with
            | String "u" (String "l" (String "l" r')) => Some (JNull, r')
            | _ => None
            end
          else if Ascii.eqb c "t" then
            match r with
            | String "r" (String "u" (String "e" r')) => Some (JBool true, r')
            | _ => None
            end
          else if Ascii.eqb c "f" then
            match r with
            | String "a" (String "l" (String "s" (String "e" r'))) => Some (JBool false, r')
            | _ => None
            end
          else parse_number s
      end
  end
with parse_elems (fuel : nat) (s : string) : option (list json * string) :=
  match fuel with
  | O => None
  | S f =>
      match parse_value f s with
      | None => None
      | Some (v, r) =>
          match skip_ws r with
          | "" => None
          | String c r' =>
              if Ascii.eqb c "]" then Some ([v], r')
              else if Ascii.eqb c "," then
                match parse_elems f (skip_ws r') with
                | Some (vs, r'') => Some (v :: vs, r'')
                | None => None
                end
              else None
          end
      end
  end
with parse_members (fuel : nat) (s : string) : option (list (string * json) * string) :=
  match fuel with
  | O => None
  | S f =>
      match s with
      | "" => None
      | String c r =>
          if Ascii.eqb c dquote then
            match scanstring r with
            | None => None
            | Some (k, r1) =>
                match skip_ws r1 with
                | "" => None
                | String c2 r2 =>
                    if Ascii.eqb c2 ":" then
                      match parse_value f (skip_ws r2) with
                      | None => None
                      | Some (v, r3) =>
                          match skip_ws r3 with
                          | "" => None
                          | String c4 r4 =>
                              if Ascii.eqb c4 "}" then Some ([(k, v)], r4)
                              else if Ascii.eqb c4 "," then
                                match parse_members f (skip_ws r4) with
                                | Some (kvs, r'') => Some ((k, v) :: kvs, r'')
                                | None => None
                                end
                              else None
                          end
                      end
                    else None
                end
            end
          else None
      end
  end.

(** [json.loads(s)]: leading and trailing whitespace is skipped, and
    anything left after the value is an error. *)
Definition json_loads (s : string) : option json :=
  match parse_value (S (String.length s)) (skip_ws s) with
  | Some (v, r) => if decide (skip_ws r = "") then Some v else None
  | None => None
  end.

(** ** External collaborators

    The [utils] module and the interpreter's [str] are taken as given:
    [CURRENT_PATH] is the directory of the module,
    [_get_from_github_api org repo branch path] fetches a raw file,
    [get_from_github_api project config] resolves a [github_file]
    attribute, and [py_str] is [str()] of a value as an f-string
    formats it. *)
Record Env : Type := {
  CURRENT_PATH : string;
  _get_from_github_api : string -> string -> string -> string -> result string;
  get_from_github_api : project -> json -> result json;
  py_str : json -> string
}.

(** ** A state and exception monad over the builder and the world *)

Definition M (A : Type) : Type :=
  CatalogBuilder * world -> result A * (CatalogBuilder * world).

#[global] Instance M_ret : MRet M := fun A a st => (Ok a, st).
#[global] Instance M_bind : MBind M := fun A B f m st =>
  match m st with
  | (Ok a, st') => f a st'
  | (Raise e, st') => (Raise e, st')
  end.

Definition raise {A : Type} (e : exn) : M A := fun st => (Raise e, st).

Definition lift {A : Type} (r : result A) : M A := fun st => (r, st).

Definition get_self : M CatalogBuilder := fun st => (Ok st.1, st).

Definition print (s : string) : M unit := fun st =>
  (Ok tt, (st.1, World (files st.2) (stdout st.2 ++ [s]))).

(** [open(path).read()] *)
Definition read_file (path : string) : M string := fun st =>
  match files st.2 !! path with
  | Some text => (Ok text, st)
  | None => (Raise (OSError path), st)
  end.

(** [open(path, "w").write(text)] *)
Definition write_file (path text : string) : M unit := fun st =>
  (Ok tt, (st.1, World (<[path := text]> (files st.2)) (stdout st.2))).

Definition set_catalog (c : json) : M unit := fun st =>
  (Ok tt, (Builder (projects st.1) (index_dir st.1) c (repos st.1) (develop st.1), st.2)).

(** [self.repos[k] = url] *)
Definition set_repo (k url : string) : M unit := fun st =>
  (Ok tt, (Builder (projects st.1) (index_dir st.1) (catalog st.1)
             (<[k := url]> (repos st.1)) (develop st.1), st.2)).

(** [for x in xs: body(x)] *)
Fixpoint for_each {A : Type} (xs : list A) (body : A -> M unit) : M unit :=
  match xs with
  | [] => mret tt
  | x :: xs' => body x ;; for_each xs' body
  end.

(** ** Subscripts on Python values *)

(** [v[key]] for a string key: a [dict] looks the key up, anything
    else cannot be subscripted by a string. *)
Definition getitem (v : json) (key : string) : result json :=
  match v with
  | JObj d =>
      match od_get key d with
      | Some x => Ok x
      | None => Raise (KeyError key)
      end
  | _ => Raise TypeError
  end.

(** [v.items()] *)
Definition py_items (v : json) : result (list (string * json)) :=
  match v with
  | JObj d => Ok d
  | _ => Raise AttributeError
  end.

(** [v == s] for a string literal [s]. *)
Definition is_str (v : json) (s : string) : bool :=
  match v with
  | JStr t => bool_decide (t = s)
  | _ => false
  end.

(** A value inside an f-string. *)
Definition fmt (E : Env) (v : json) : string :=
  match v with
  | JStr s => s
  | _ => py_str E v
  end.

(** [cat[repo][attr] = v] on the catalog.  The catalog of [__init__]
    is a [defaultdict(dict)]: a missing [repo] gets an empty [dict]
    first.  (Only network mode assigns into the catalog, and the mode
    of a builder is fixed by [__init__], so the catalog it assigns into
    is that [defaultdict], never the plain [dict] of replay mode.) *)
Definition cat_setitem (cat : json) (repo attr : string) (v : json) : result json :=
  match cat with
  | JObj d =>
      match od_get repo d with
      | None => Ok (JObj (od_set repo (JObj [(attr, v)]) d))
      | Some (JObj a) => Ok (JObj (od_set repo (JObj (od_set attr v a)) d))
      | Some _ => Raise TypeError
      end
  | _ => Raise TypeError
  end.

Definition set_attr (repo attr : string) (v : json) : M unit := fun st =>
  match cat_setitem (catalog st.1) repo attr v with
  | Ok c => set_catalog c st
  | Raise e => (Raise e, st)
  end.

(** ** [sorted(xs, key=...)] and [str.upper] *)

Definition upper_char (c : ascii) : ascii :=
  let n := N_of_ascii c in
  if ((97 <=? n) && (n <=? 122))%N then ascii_of_N (n - 32) else c.

Fixpoint str_upper (s : string) : string :=
  match s with
  | "" => ""
  | String c r => String (upper_char c) (str_upper r)
  end.

Section sorted.
Context {A : Type} (key : A -> string).

(** [x] goes before the first element whose key is not smaller. *)
Fixpoint insert_sorted (x : A) (l : list A) : list A :=
  match l with
  | [] => [x]
  | y :: l' =>
      if String.leb (key x) (key y) then x :: y :: l'
      else y :: insert_sorted x l'
  end.

(** The stable sort by [key]. *)
Fixpoint sorted (l : list A) : list A :=
  match l with
  | [] => []
  | x :: l' => insert_sorted x (sorted l')
  end.

End sorted.

(** ** [CatalogBuilder.__init__] *)

(** The registry document as a list of project references.  An entry
    that is not an object with string fields [org], [repo] and [branch]
    is rejected here; Python would fail on it at its first use. *)
Definition project_of_json (j : json) : option project :=
  match j with
  | JObj d =>
      match od_get "org" d, od_get "repo" d, od_get "branch" d with
      | Some (JStr o), Some (JStr r), Some (JStr b) => Some (Project o r b)
      | _, _, _ => None
      end
  | _ => None
  end.

Definition projects_of_json (j : json) : result (list project) :=
  match j with
  | JArr xs =>
      match mapM project_of_json xs with
      | Some ps => Ok ps
      | None => Raise TypeError
      end
  | _ => Raise TypeError
  end.

Definition load_register (E : Env) (w : world) : result (list project) :=
  let p := path_join (CURRENT_PATH E) "../register.json" in
  match files w !! p with
  | None => Raise (OSError p)
  | Some text =>
      match json_loads text with
      | None => Raise JSONDecodeError
      | Some j => projects_of_json j
      end
  end.

(** The loop of lines 90-94: the first project whose [repo] is
    [build_one], if any. *)
Fixpoint select_project (build_one : string) (ps : list project) : option project :=
  match ps with
  | [] => None
  | p :: ps' =>
      if decide (repo p = build_one) then Some p
      else select_project build_one ps'
  end.

Definition __init__ (E : Env) (w : world)
    (projects : option (list project)) (index_dir card_dir : option string)
    (develop : bool) (build_one : option string) : result CatalogBuilder :=
  match (match projects with
         | None => load_register E w
         | Some ps => Ok ps
         end) with
  | Raise e => Raise e
  | Ok ps =>
      let dir :=
        match index_dir with
        | Some d => if decide (d = "") then path_join (CURRENT_PATH E) "../" else d
        | None => path_join (CURRENT_PATH E) "../"
        end in
      match build_one with
      | None => Ok (Builder ps dir (JObj []) ∅ develop)
      | Some name =>
          match select_project name ps with
          | Some p => Ok (Builder [p] dir (JObj []) ∅ develop)
          | None =>
              Raise (ProjectDoesNotExist
                       (name +:+ " is not in register.json or projects if provided."))
          end
      end
  end.

(** ** [CatalogBuilder.load_catalog] *)

Definition repo_url (o r : string) : string :=
  "https://github.com/" +:+ o +:+ "/" +:+ r.

Definition name_attr (p : project) : json :=
  JObj [("value", JStr (repo p)); ("source", JStr "")].

Definition resolved (source value : json) : json :=
  JObj [("source", source); ("value", value)].

Definition missing_msg (E : Env) (p : project) (attr : string) (config : json) : string :=
  "MISSING DATA: " +:+ repo p +:+ ", entry: " +:+ attr +:+ ", " +:+ fmt E config.

(** Lines 127-145: the resolved attribute of one descriptor entry. *)
Definition resolve (E : Env) (p : project) (attr : string) (config : json) : M json :=
  ty ← lift (getitem config "type");
  if is_str ty "github_file" then
    value ← lift (get_from_github_api E p config);
    src ← lift (getitem config "source");
    mret (resolved
            (JStr ("https://github.com/" +:+ org p +:+ "/" +:+ repo p +:+ "/blob/"
                     +:+ branch p +:+ "/" +:+ fmt E src))
            value)
  else
    ty' ← lift (getitem config "type");
    if is_str ty' "html" then
      source ← lift (getitem config "source");
      value ← lift (getitem config "data");
      mret (resolved source value)
    else
      print (missing_msg E p attr config) ;;
      mret (resolved JNull JNull).

(** Lines 126-146: the loop over the entries of the descriptor. *)
Fixpoint load_attrs (E : Env) (p : project) (items : list (string * json)) : M unit :=
  match items with
  | [] => mret tt
  | (attr, config) :: rest =>
      res ← resolve E p attr config;
      set_attr (repo p) attr res ;;
      load_attrs E p rest
  end.

(** Lines 112-146: the body of the loop over the projects. *)
Definition load_project (E : Env) (p : project) : M unit :=
  text ← lift (_get_from_github_api E (org p) (repo p) (branch p) "PSL_catalog.json");
  cat_meta ← lift (match json_loads text with
                   | Some j => Ok j
                   | None => Raise JSONDecodeError
                   end);
  set_attr (repo p) "name" (name_attr p) ;;
  set_repo (repo p) (repo_url (org p) (repo p)) ;;
  items ← lift (py_items cat_meta);
  load_attrs E p items.

Definition load_catalog (E : Env) : M unit :=
  self ← get_self;
  if negb (develop self) then
    for_each (sorted (fun x => str_upper (repo x)) (projects self)) (load_project E)
  else
    print "Develop mode. Loading Catalog from catalog.json" ;;
    text ← read_file (path_join (index_dir self) "catalog.json");
    c ← lift (match json_loads text with
              | Some j => Ok j
              | None => Raise JSONDecodeError
              end);
    set_catalog c ;;
    for_each (projects self) (fun p => set_repo (repo p) (repo_url (org p) (repo p))) ;;
    print "Catalog Loaded".

(** ** [CatalogBuilder.dump_catalog] *)

Definition dump_catalog (output_path : option string) : M string :=
  self ← get_self;
  let cat_json := json_dumps_indent4 (catalog self) in
  match output_path with
  | Some path => write_file path cat_json
  | None => mret tt
  end ;;
  mret cat_json.

(** ** Reading the catalog *)

(** [cat[repo][attr]], when both subscripts succeed. *)
Definition cat_getitem (cat : json) (repo attr : string) : option json :=
  match cat with
  | JObj d =>
      match od_get repo d with
      | Some (JObj a) => od_get attr a
      | _ => None
      end
  | _ => None
  end.

(** [list(cat.keys())] *)
Definition cat_keys (cat : json) : list string :=
  match cat with
  | JObj d => od_keys d
  | _ => []
  end.

(** The entry of [repo] exists and is a [dict], as line 119 leaves it. *)
Definition cat_ready (cat : json) (repo : string) : Prop :=
  match cat with
  | JObj d =>
      match od_get repo d with
      | Some (JObj _) => True
      | _ => False
      end
  | _ => False
  end.

(** The keys of a dictionary into which [ks] are inserted one after the
    other: a key already present keeps its place. *)
Definition add_key (acc : list string) (k : string) : list string :=
  if decide (k ∈ acc) then acc else acc ++ [k].


(** The order of [sorted(.., key=lambda x: x["repo"].upper())]. *)
Definition upper_le (a b : string) : Prop :=
  String.leb (str_upper a) (str_upper b) = true.

(** The repo link table after the loop of lines 152-155. *)
Definition link_all (ps : list project) (m : gmap string string) : gmap string string :=
  foldl (fun m p => <[repo p := repo_url (org p) (repo p)]> m) m ps.

(** The builder with its catalog replaced. *)
Definition with_catalog (b : CatalogBuilder) (c : json) : CatalogBuilder :=
  Builder (projects b) (index_dir b) c (repos b) (develop b).

(** The descriptor of a project, when it is fetched and decodes to an
    object. *)
Definition descriptor (E : Env) (p : project) : option (list (string * json)) :=
  match _get_from_github_api E (org p) (repo p) (branch p) "PSL_catalog.json" with
  | Ok text =>
      match json_loads text with
      | Some (JObj d) => Some d
      | _ => None
      end
  | Raise _ => None
  end.

(** The dictionaries of a value have pairwise distinct keys. *)
Fixpoint json_wf (v : json) : Prop :=
  match v with
  | JArr xs => (fix all (l : list json) : Prop :=
                  match l with
                  | [] => True
                  | x :: l' => json_wf x /\ all l'
                  end) xs
  | JObj kvs => NoDup (kvs.*1) /\
                (fix all (l : list (string * json)) : Prop :=
                   match l with
                   | [] => True
                   | kv :: l' => json_wf (snd kv) /\ all l'
                   end) kvs
  | _ => True
  end.


(** A text that begins with a character that is not whitespace. *)
Definition solid (s : string) : Prop :=
  match s with
  | "" => False
  | String c _ => is_ws c = false
  end.





(** ** The region resolver *)

(** The index of the first occurrence of [needle] in [hay]. *)
Fixpoint str_find (needle hay : string) : option nat :=
  if String.prefix needle hay then Some 0
  else
    match hay with
    | "" => None
    | String _ r =>
        match str_find needle r with
        | Some i => Some (S i)
        | None => None
        end
    end.

Fixpoint str_drop (n : nat) (s : string) : string :=
  match n, s with
  | S n', String _ r => str_drop n' r
  | _, _ => s
  end.

Fixpoint str_take (n : nat) (s : string) : string :=
  match n, s with
  | S n', String c r => String c (str_take n' r)
  | _, _ => ""
  end.

(** Modelled from the spec: [utils.parse_section], the extraction behind
    [utils.get_from_github_api], is not among the sources.  Section 4.3:
    locate the first occurrence of the start marker and the first
    occurrence of the end marker after it, and extract the text strictly
    between them.  [None] when a marker is absent. *)
Definition parse_section (text start_header end_header : string) : option string :=
  match str_find start_header text with
  | None => None
  | Some i =>
      let after := str_drop (i + String.length start_header) text in
      match str_find end_header after with
      | None => None
      | Some j => Some (str_take j after)
      end
  end.

(** Modelled from the spec: [utils.get_from_github_api] is not among the
    sources.  Section 4.3: fetch the referenced file's full text and
    extract the region between the markers of the descriptor.  What it
    does when a marker is absent is left open by the spec and is the
    parameter [absent]. *)
Definition get_from_github_api_spec
    (fetch : string -> string -> string -> string -> result string)
    (absent : result json) (p : project) (config : json) : result json :=
  match getitem config "source", getitem config "start_header",
        getitem config "end_header" with
  | Ok (JStr path), Ok (JStr start_header), Ok (JStr end_header) =>
      match fetch (org p) (repo p) (branch p) path with
      | Ok text =>
          match parse_section text start_header end_header with
          | Some region => Ok (JStr region)
          | None => absent
          end
      | Raise e => Raise e
      end
  | Raise e, _, _ => Raise e
  | _, Raise e, _ => Raise e
  | _, _, Raise e => Raise e
  | _, _, _ => Raise TypeError
  end.

(** ** Example data *)

Definition alpha : project := Project "PSLmodels" "alpha" "master".
Definition beta : project := Project "PSLmodels" "beta" "master".
Definition gamma : project := Project "PSLmodels" "gamma" "master".

(** The environment of the examples: no network, and values print as
    the empty string. *)
Definition offline : Env :=
  {| CURRENT_PATH := "/srv/Catalog/catalog_builder";
     _get_from_github_api := fun _ _ _ _ => Raise (FetchError "offline");
     get_from_github_api := fun _ _ => Raise (FetchError "offline");
     py_str := fun _ => "" |}.

Definition empty_world : world := World ∅ [].

Definition beta_fork : project := Project "someone" "beta" "develop".

Definition zeta : project := Project "PSLmodels" "zeta" "master".
Definition Alpha : project := Project "PSLmodels" "Alpha" "main".

(** Every project has the same descriptor text. *)
Definition serving (text : string) : Env :=
  {| CURRENT_PATH := "/srv/Catalog/catalog_builder";
     _get_from_github_api := fun _ _ _ _ => Ok text;
     get_from_github_api := fun _ _ => Raise (FetchError "offline");
     py_str := fun _ => "" |}.


(** A descriptor with one inline attribute. *)
Definition plain_descriptor : json :=
  JObj [("project_one_line", JObj [("type", JStr "html"); ("source", JStr "README");
                                   ("data", JStr "A model")])].

(** The text between the markers in the example of the spec. *)
Definition hello_region : string := String newline ("HELLO" +:+ String newline "").

(** An environment that resolves regions as the spec describes, over a
    repository whose every file has the content [text]. *)
Definition region_env (text : string) : Env :=
  {| CURRENT_PATH := "/srv/Catalog/catalog_builder";
     _get_from_github_api := fun _ _ _ _ => Ok text;
     get_from_github_api :=
       get_from_github_api_spec (fun _ _ _ _ => Ok text) (Raise (FetchError "marker"));
     py_str := fun _ => "" |}.

(** A builder in network mode and one in replay mode over the same
    output directory. *)
Definition network_builder : CatalogBuilder :=
  Builder [zeta; Alpha] "/srv/out" (JObj []) ∅ false.



(** ** [CatalogBuilder.write_pages] and the [__main__] block *)

(** [utils.render_template(path, catalog=.., repos=..)] is not among the
    sources: it is the parameter [render] of what follows. *)
Definition renderer : Type := string -> json -> gmap string string -> result string.

(** Lines 168-177. *)
Definition write_pages (E : Env) (render : renderer) : M unit :=
  self ← get_self;
  let models_path :=
    path_join (path_join (CURRENT_PATH E) "../templates") "catalog_template.html" in
  rendered ← lift (render models_path (catalog self) (repos self));
  write_file (path_join (index_dir self) "index.html") rendered.

(** Lines 222-225, after the arguments are parsed: the builder that was
    made, or the exception, and the world the run leaves. *)
Definition main (E : Env) (render : renderer) (develop : bool) (build_one : option string)
    (w : world) : result CatalogBuilder * world :=
  match __init__ E w None None None develop build_one with
  | Raise e => (Raise e, w)
  | Ok cb =>
      match (load_catalog E ;;
             write_pages E render ;;
             self ← get_self;
             dump_catalog (Some (path_join (index_dir self) "catalog.json"))) (cb, w) with
      | (Ok _, (cb', w')) => (Ok cb', w')
      | (Raise e, (_, w')) => (Raise e, w')
      end
  end.

(** ** What the resolver returns *)

(** The value [resolve] returns; it does not depend on the state. *)
Definition resolve_value (E : Env) (p : project) (config : json) : result json :=
  match getitem config "type" with
  | Raise e => Raise e
  | Ok ty =>
      if is_str ty "github_file" then
        match get_from_github_api E p config with
        | Raise e => Raise e
        | Ok value =>
            match getitem config "source" with
            | Raise e => Raise e
            | Ok src =>
                Ok (resolved
                      (JStr ("https://github.com/" +:+ org p +:+ "/" +:+ repo p +:+ "/blob/"
                               +:+ branch p +:+ "/" +:+ fmt E src))
                      value)
            end
        end
      else if is_str ty "html" then
        match getitem config "source" with
        | Raise e => Raise e
        | Ok source =>
            match getitem config "data" with
            | Raise e => Raise e
            | Ok value => Ok (resolved source value)
            end
        end
      else Ok (resolved JNull JNull)
  end.

(** The attributes and their resolved values, entry by entry. *)
Definition resolved_entries (E : Env) (p : project)
    (items vals : list (string * json)) : Prop :=
  Forall2 (fun kv rv => fst rv = fst kv /\ resolve_value E p (snd kv) = Ok (snd rv))
          items vals.

(** A dictionary with the two fields of a resolved attribute, in either
    order. *)
Definition attr_shape (v : json) : Prop :=
  exists s x, v = JObj [("source", s); ("value", x)] \/ v = JObj [("value", x); ("source", s)].

(** Every attribute of every entry is a resolved attribute. *)
Definition cat_attrs_shaped (cat : json) : Prop :=
  forall r a v, cat_getitem cat r a = Some v -> attr_shape v.

(** The catalog is a dictionary of dictionaries. *)
Definition cat_shape (cat : json) : Prop :=
  match cat with
  | JObj d => Forall (fun kv => exists a, snd kv = JObj a) d
  | _ => False
  end.

(** [cat[repo]], when it is a dictionary. *)
Definition cat_entry (cat : json) (repo : string) : option (list (string * json)) :=
  match cat with
  | JObj d =>
      match od_get repo d with
      | Some (JObj a) => Some a
      | _ => None
      end
  | _ => None
  end.

(** The descriptor of [p] is there and each of its entries resolves. *)
Definition project_loads (E : Env) (p : project) : Prop :=
  exists items,
    descriptor E p = Some items /\
    Forall (fun kv => exists v, resolve_value E p (snd kv) = Ok v) items.

(** ** The registry as JSON *)

Definition json_of_project (p : project) : json :=
  JObj [("org", JStr (org p)); ("repo", JStr (repo p)); ("branch", JStr (branch p))].

Definition json_of_projects (ps : list project) : json :=
  JArr (List.map json_of_project ps).



(** More example data: a renderer that lists the keys of the catalog,
    and a world with a registry file and a catalog file. *)
Definition listing : renderer :=
  fun _ cat _ => Ok (String.concat "," (cat_keys cat)).

Definition registry_world (ps : list project) (cat : json) : world :=
  World {[ "/srv/Catalog/catalog_builder/../register.json" :=
             json_dumps_indent4 (json_of_projects ps);
           "/srv/Catalog/catalog_builder/../catalog.json" :=
             json_dumps_indent4 cat ]} [].

Definition inline_entry : json :=
  JObj [("type", JStr "html"); ("source", JStr "README"); ("data", JNull)].

Definition file_entry : json :=
  JObj [("type", JStr "github_file"); ("source", JStr "README.md");
        ("start_header", JStr "START"); ("end_header", JStr "END")].

(** ** Relations between the state before and after a computation *)

(** [m] relates the state it starts from to the state it leaves,
    whether it returns or raises. *)
Definition keeps {A : Type} (R : relation (CatalogBuilder * world)) (m : M A) : Prop :=
  forall st r st', m st = (r, st') -> R st st'.

(** The values [m] returns satisfy [P]. *)
Definition returns {A : Type} (P : A -> Prop) (m : M A) : Prop :=
  forall st a st', m st = (Ok a, st') -> P a.

(** Nothing but the catalog, the repo link table and the output has
    changed, and the output has only grown. *)
Definition frame (st st' : CatalogBuilder * world) : Prop :=
  projects st'.1 = projects st.1 /\
  index_dir st'.1 = index_dir st.1 /\
  develop st'.1 = develop st.1 /\
  files st'.2 = files st.2 /\
  exists out, stdout st'.2 = stdout st.2 ++ out.

(** The attributes of the catalog stay resolved attributes. *)
Definition shaped_step (st st' : CatalogBuilder * world) : Prop :=
  cat_attrs_shaped (catalog st.1) -> cat_attrs_shaped (catalog st'.1).

(** What [os.path.join] puts before a relative second argument. *)
Definition path_prefix (d : string) : string :=
  if decide (d = "") then ""
  else if ends_with_sep d then d
  else d +:+ "/".


Definition catalog_path (b : CatalogBuilder) : string :=
  path_join (index_dir b) "catalog.json".

Definition index_path (b : CatalogBuilder) : string :=
  path_join (index_dir b) "index.html".

Definition template_path (E : Env) : string :=
  path_join (path_join (CURRENT_PATH E) "../templates") "catalog_template.html".

(** Only the descriptor of [Alpha] can be fetched. *)
Definition only_alpha : Env :=
  {| CURRENT_PATH := "/srv/Catalog/catalog_builder";
     _get_from_github_api := fun _ r _ _ =>
       if decide (r = "Alpha") then Ok (json_dumps_indent4 plain_descriptor)
       else Raise (FetchError r);
     get_from_github_api := fun _ _ => Raise (FetchError "offline");
     py_str := fun _ => "" |}.

(** * Properties *)

(** ** The single-project filter of the constructor *)

Lemma select_project_Some name ps p :
  select_project name ps = Some p ->
  exists l1 l2, ps = l1 ++ p :: l2 /\ repo p = name /\
                Forall (fun q => repo q <> name) l1.
Proof.
  induction ps as [|q ps IH]; simpl; [discriminate|].
  destruct (decide (repo q = name)) as [Hq|Hq].
  - intros [= ->]. exists [], ps. auto.
  - intros Hsel. destruct (IH Hsel) as (l1 & l2 & -> & Hp & Hl1).
    exists (q :: l1), l2. auto.
Qed.

Lemma select_project_first name l1 p l2 :
  Forall (fun q => repo q <> name) l1 -> repo p = name ->
  select_project name (l1 ++ p :: l2) = Some p.
Proof.
  intros Hl1 Hp. induction Hl1 as [|q l1 Hq _ IH]; simpl.
  - rewrite decide_True; auto.
  - rewrite decide_False; auto.
Qed.

Lemma select_project_None name ps :
  select_project name ps = None <-> Forall (fun q => repo q <> name) ps.
Proof.
  induction ps as [|q ps IH]; simpl.
  - split; auto.
  - destruct (decide (repo q = name)) as [Hq|Hq].
    + split; [discriminate|]. intros H. inversion H; subst. contradiction.
    + rewrite IH. split; [auto|]. intros H. inversion H; auto.
Qed.

(** C3. With a project list [ps] and a filter [name]: when some project
    of [ps] has that repository name the constructor succeeds and the
    project list of the builder is the singleton of a project of [ps]
    with that name; when none has, the constructor raises
    [ProjectDoesNotExist] and no builder is made. *)
Theorem init_build_one E w ps idx card dev name :
  ((exists p, p ∈ ps /\ repo p = name) ->
   exists p b, p ∈ ps /\ repo p = name /\
     __init__ E w (Some ps) idx card dev (Some name) = Ok b /\
     projects b = [p]) /\
  ((forall p, p ∈ ps -> repo p <> name) ->
   __init__ E w (Some ps) idx card dev (Some name) =
     Raise (ProjectDoesNotExist
              (name +:+ " is not in register.json or projects if provided."))).
Proof.
  unfold __init__. split.
  - intros (p & Hin & Hp).
    destruct (select_project name ps) as [q|] eqn:Hsel.
    + destruct (select_project_Some _ _ _ Hsel) as (l1 & l2 & -> & Hq & _).
      exists q. eexists. repeat split; eauto.
      apply elem_of_app. right. constructor.
    + apply select_project_None in Hsel.
      rewrite Forall_forall in Hsel. destruct (Hsel p Hin Hp).
  - intros Hnone.
    assert (select_project name ps = None) as ->; [|done].
    apply select_project_None, Forall_forall. exact Hnone.
Qed.

Lemma init_build_one_witness :
  (exists b, __init__ offline empty_world (Some [alpha; beta; gamma]) None None false
               (Some "beta") = Ok b /\ projects b = [beta]) /\
  __init__ offline empty_world (Some [alpha; beta; gamma]) None None false (Some "delta")
    = Raise (ProjectDoesNotExist "delta is not in register.json or projects if provided.").
Proof.
  pose proof (init_build_one offline empty_world [alpha; beta; gamma] None None false "beta")
    as [Hyes _].
  pose proof (init_build_one offline empty_world [alpha; beta; gamma] None None false "delta")
    as [_ Hno].
  split.
  - destruct Hyes as (p & b & _ & _ & Hb & Hp).
    + exists beta. split; [|reflexivity]. apply list_elem_of_In. simpl. auto.
    + exists b. split; [exact Hb|]. rewrite Hp.
      vm_compute in Hb. injection Hb as <-. vm_compute in Hp. exact (eq_sym Hp).
  - apply Hno. intros p Hin Hp.
    apply list_elem_of_In in Hin. simpl in Hin.
    destruct Hin as [<-|[<-|[<-|[]]]]; discriminate Hp.
Defined.

(** C9. When several projects of the list have the repository name of
    the filter, the constructor succeeds and keeps the first of them in
    the order of the list: with [p] the first match ([l1], before it,
    has none), the project list becomes [[p]] whatever [l2] holds, other
    matches included. *)
Theorem init_build_one_first E w l1 p l2 idx card dev name :
  Forall (fun q => repo q <> name) l1 ->
  repo p = name ->
  exists b, __init__ E w (Some (l1 ++ p :: l2)) idx card dev (Some name) = Ok b /\
            projects b = [p].
Proof.
  intros Hl1 Hp. unfold __init__.
  rewrite (select_project_first name l1 p l2 Hl1 Hp).
  eexists. split; reflexivity.
Qed.

Lemma init_build_one_first_witness :
  exists b, __init__ offline empty_world (Some ([alpha] ++ beta :: [gamma; beta_fork]))
              None None false (Some "beta") = Ok b /\
            projects b = [beta].
Proof.
  apply (init_build_one_first offline empty_world [alpha] beta [gamma; beta_fork]).
  - repeat constructor. discriminate.
  - reflexivity.
Defined.

(** ** Running the monad *)

Lemma bind_run {A B : Type} (m : M A) (f : A -> M B) st :
  (m ≫= f) st =
  match m st with
  | (Ok a, st') => f a st'
  | (Raise e, st') => (Raise e, st')
  end.
Proof. reflexivity. Qed.

Lemma init_fresh E w ps idx card dev bo b :
  __init__ E w ps idx card dev bo = Ok b ->
  develop b = dev /\ repos b = ∅ /\ catalog b = JObj [].
Proof.
  unfold __init__. intros H.
  repeat match type of H with
         | match ?x with _ => _ end = _ => destruct x; try discriminate
         end; injection H as <-; auto.
Qed.

(** ** Replay mode *)

Lemma for_each_set_repo ps b w :
  for_each ps (fun p => set_repo (repo p) (repo_url (org p) (repo p))) (b, w) =
  (Ok tt, (Builder (projects b) (index_dir b) (catalog b) (link_all ps (repos b)) (develop b), w)).
Proof.
  revert b. induction ps as [|p ps IH]; intros b; simpl.
  - destruct b; reflexivity.
  - rewrite bind_run. unfold set_repo at 1. simpl. rewrite IH. reflexivity.
Qed.

Lemma link_all_lookup_other ps m k :
  (forall p, p ∈ ps -> repo p <> k) -> link_all ps m !! k = m !! k.
Proof.
  revert m. induction ps as [|p ps IH]; intros m Hk; simpl; [done|].
  rewrite IH.
  - apply lookup_insert_ne. apply Hk. constructor.
  - intros q Hq. apply Hk. by constructor.
Qed.

Lemma link_all_lookup ps m p :
  NoDup (repo <$> ps) -> p ∈ ps ->
  link_all ps m !! repo p = Some (repo_url (org p) (repo p)).
Proof.
  revert m. induction ps as [|q ps IH]; intros m Hnd Hin; simpl.
  - inversion Hin.
  - rewrite fmap_cons in Hnd. apply NoDup_cons in Hnd as [Hq Hnd].
    apply elem_of_cons in Hin as [->|Hin].
    + rewrite link_all_lookup_other.
      * apply lookup_insert_eq.
      * intros p Hp Heq. apply Hq. rewrite <- Heq.
        apply list_elem_of_fmap. eauto.
    + by apply IH.
Qed.

Lemma link_all_dom ps m k :
  is_Some (link_all ps m !! k) -> is_Some (m !! k) \/ exists p, p ∈ ps /\ repo p = k.
Proof.
  revert m. induction ps as [|q ps IH]; intros m; simpl; [auto|].
  intros H. apply IH in H as [H|(p & Hp & <-)].
  - destruct (decide (repo q = k)) as [<-|Hne].
    + right. exists q. split; [constructor|done].
    + rewrite lookup_insert_ne in H by done. auto.
  - right. exists p. split; [by constructor|done].
Qed.

Lemma link_all_size ps :
  NoDup (repo <$> ps) -> size (link_all ps ∅) = length ps.
Proof.
  intros Hnd.
  assert (forall m, (forall p, p ∈ ps -> m !! repo p = None) ->
                    size (link_all ps m) = size m + length ps) as Hgen.
  { induction ps as [|q ps IH]; intros m Hm; simpl; [lia|].
    rewrite fmap_cons in Hnd. apply NoDup_cons in Hnd as [Hq Hnd].
    rewrite IH; [|done|].
    - rewrite map_size_insert_None; [lia|]. apply Hm. constructor.
    - intros p Hp. rewrite lookup_insert_ne; [apply Hm; by constructor|].
      intros Heq. apply Hq. rewrite Heq. apply list_elem_of_fmap. eauto. }
  rewrite Hgen; [by rewrite map_size_empty|]. intros. apply lookup_empty.
Qed.

Lemma load_catalog_replay E b w text c :
  develop b = true ->
  files w !! path_join (index_dir b) "catalog.json" = Some text ->
  json_loads text = Some c ->
  load_catalog E (b, w) =
  (Ok tt,
   (Builder (projects b) (index_dir b) c (link_all (projects b) (repos b)) true,
    World (files w)
      (stdout w ++ ["Develop mode. Loading Catalog from catalog.json"] ++ ["Catalog Loaded"]))).
Proof.
  intros Hdev Hfile Hload. unfold load_catalog.
  rewrite bind_run. unfold get_self at 1. simpl. rewrite Hdev. simpl.
  rewrite bind_run. unfold print at 1. simpl.
  rewrite bind_run. unfold read_file at 1. simpl. rewrite Hfile.
  rewrite bind_run. rewrite Hload. unfold lift at 1.
  rewrite bind_run. unfold set_catalog at 1. simpl.
  rewrite bind_run. rewrite for_each_set_repo. simpl.
  unfold print. simpl. rewrite Hdev, <- app_assoc. reflexivity.
Qed.

Lemma load_catalog_replay_inv E b w b' w' :
  develop b = true ->
  load_catalog E (b, w) = (Ok tt, (b', w')) ->
  exists text c,
    files w !! path_join (index_dir b) "catalog.json" = Some text /\
    json_loads text = Some c.
Proof.
  intros Hdev. unfold load_catalog.
  rewrite bind_run. unfold get_self at 1. simpl. rewrite Hdev. simpl.
  rewrite bind_run. unfold print at 1. simpl.
  rewrite bind_run. unfold read_file at 1. simpl.
  destruct (files w !! path_join (index_dir b) "catalog.json") as [text|]; [|discriminate].
  rewrite bind_run.
  destruct (json_loads text) as [c|] eqn:Hload; [|discriminate].
  eauto.
Qed.

(** C6. A builder made for replay mode, whose projects have pairwise
    distinct repository names, has after a run of [load_catalog] a repo
    link table with one entry per project and no other, the entry of a
    project being ["https://github.com/{org}/{repo}"]. *)
Theorem replay_repo_links E w0 ps idx card bo b w b' w' :
  __init__ E w0 ps idx card true bo = Ok b ->
  NoDup (repo <$> projects b) ->
  load_catalog E (b, w) = (Ok tt, (b', w')) ->
  size (repos b') = length (projects b) /\
  (forall p, p ∈ projects b ->
     repos b' !! repo p = Some ("https://github.com/" +:+ org p +:+ "/" +:+ repo p)) /\
  (forall k, is_Some (repos b' !! k) -> exists p, p ∈ projects b /\ repo p = k).
Proof.
  intros Hinit Hnd Hrun.
  destruct (init_fresh _ _ _ _ _ _ _ _ Hinit) as (Hdev & Hrepos & _).
  destruct (load_catalog_replay_inv _ _ _ _ _ Hdev Hrun) as (text & c & Hfile & Hload).
  rewrite (load_catalog_replay _ _ _ _ _ Hdev Hfile Hload) in Hrun.
  injection Hrun as <- _. simpl. rewrite Hrepos.
  split; [by apply link_all_size|]. split.
  - intros p Hp. by apply link_all_lookup.
  - intros k Hk. apply link_all_dom in Hk as [Hk|Hk]; [|done].
    rewrite lookup_empty in Hk. by destruct Hk.
Qed.

Lemma replay_repo_links_witness :
  let w := World {[ "/srv/out/catalog.json" := "{}" ]} [] in
  exists b b' w',
    __init__ offline empty_world (Some [alpha; beta; gamma]) (Some "/srv/out") None true None
      = Ok b /\
    load_catalog offline (b, w) = (Ok tt, (b', w')) /\
    size (repos b') = 3 /\
    repos b' !! "beta" = Some "https://github.com/PSLmodels/beta".
Proof.
  intros w.
  set (b := Builder [alpha; beta; gamma] "/srv/out" (JObj []) ∅ true).
  assert (__init__ offline empty_world (Some [alpha; beta; gamma]) (Some "/srv/out") None
            true None = Ok b) as Hinit by reflexivity.
  assert (files w !! path_join (index_dir b) "catalog.json" = Some "{}") as Hfile
    by (vm_compute; reflexivity).
  assert (json_loads "{}" = Some (JObj [])) as Hload by (vm_compute; reflexivity).
  pose proof (load_catalog_replay offline b w "{}" (JObj []) eq_refl Hfile Hload) as Hrun.
  eexists b, _, _. split; [exact Hinit|]. split; [exact Hrun|].
  assert (NoDup (repo <$> projects b)) as Hnd.
  { simpl. repeat constructor; rewrite ?list_elem_of_In; simpl; intuition discriminate. }
  destruct (replay_repo_links offline empty_world _ _ _ _ b w _ _ Hinit Hnd Hrun)
    as (Hsize & Hlinks & _).
  split; [exact Hsize|].
  apply (Hlinks beta). apply list_elem_of_In. simpl. auto.
Defined.

(** C10. In replay mode [load_catalog] sets the catalog to the decoded
    content of [catalog.json] and to nothing else: the run succeeds as
    soon as the file is there and decodes, and an entry that has no
    [name] attribute in the file has none afterwards. *)
Theorem replay_catalog_verbatim E b w text c :
  develop b = true ->
  files w !! path_join (index_dir b) "catalog.json" = Some text ->
  json_loads text = Some c ->
  exists b' w',
    load_catalog E (b, w) = (Ok tt, (b', w')) /\
    catalog b' = c /\
    (forall r a, getitem c r = Ok (JObj a) -> od_get "name" a = None ->
                 cat_getitem (catalog b') r "name" = None).
Proof.
  intros Hdev Hfile Hload.
  eexists _, _. split; [by apply (load_catalog_replay E b w text c)|].
  simpl. split; [done|].
  intros r a Hr Ha. unfold getitem in Hr. unfold cat_getitem.
  destruct c as [| | | | |d]; try done.
  destruct (od_get r d) as [x|]; [|done].
  injection Hr as ->. exact Ha.
Qed.

Lemma replay_catalog_verbatim_witness :
  let text := "{" +:+ String dquote ("alpha" +:+ String dquote ": {}}") in
  let w := World {[ "/srv/out/catalog.json" := text ]} [] in
  let b := Builder [alpha] "/srv/out" (JObj []) ∅ true in
  exists b' w',
    load_catalog offline (b, w) = (Ok tt, (b', w')) /\
    catalog b' = JObj [("alpha", JObj [])] /\
    cat_getitem (catalog b') "alpha" "name" = None.
Proof.
  intros text w b.
  destruct (replay_catalog_verbatim offline b w text (JObj [("alpha", JObj [])]))
    as (b' & w' & Hrun & Hcat & Hname).
  - reflexivity.
  - vm_compute. reflexivity.
  - vm_compute. reflexivity.
  - exists b', w'. split; [exact Hrun|]. split; [exact Hcat|].
    apply (Hname "alpha" []); reflexivity.
Defined.

(** ** Ordered dictionaries *)

Section odict_facts.
Context {V : Type}.
Implicit Types (d : list (string * V)) (k : string) (v : V).

Lemma od_get_set_eq k v d : od_get k (od_set k v d) = Some v.
Proof.
  induction d as [|[k' v'] d IH]; simpl.
  - by rewrite decide_True.
  - destruct (decide (k = k')) as [->|Hne]; simpl.
    + by rewrite decide_True.
    + by rewrite decide_False.
Qed.

Lemma od_get_set_ne k k' v d : k <> k' -> od_get k' (od_set k v d) = od_get k' d.
Proof.
  intros Hne. induction d as [|[k0 v0] d IH]; simpl.
  - by rewrite decide_False.
  - destruct (decide (k = k0)) as [->|Hne0]; simpl.
    + by rewrite !decide_False.
    + by rewrite IH.
Qed.

Lemma od_get_None k d : od_get k d = None <-> k ∉ od_keys d.
Proof.
  unfold od_keys. induction d as [|[k0 v0] d IH]; simpl.
  - split; [intros _; apply not_elem_of_nil|done].
  - rewrite not_elem_of_cons. destruct (decide (k = k0)) as [->|Hne].
    + split; [discriminate|]. intros [? _]. done.
    + rewrite IH. tauto.
Qed.

Lemma od_get_Some_keys k v d : od_get k d = Some v -> k ∈ od_keys d.
Proof.
  intros H. destruct (decide (k ∈ od_keys d)) as [|Hn]; [done|].
  apply od_get_None in Hn. congruence.
Qed.

Lemma od_keys_set k v d : od_keys (od_set k v d) = add_key (od_keys d) k.
Proof.
  unfold od_keys, add_key. induction d as [|[k0 v0] d IH].
  - cbn [od_set]. rewrite fmap_cons, !fmap_nil.
    destruct (decide (k ∈ [])) as [Hin|Hin]; [|done].
    by apply elem_of_nil in Hin.
  - cbn [od_set]. destruct (decide (k = k0)) as [->|Hne]; rewrite !fmap_cons; simpl.
    + destruct (decide (k0 ∈ k0 :: d.*1)) as [Hin|Hin]; [done|].
      exfalso. apply Hin. constructor.
    + rewrite IH.
      destruct (decide (k ∈ d.*1)) as [Hin|Hin];
        destruct (decide (k ∈ k0 :: d.*1)) as [Hin'|Hin']; try done.
      * exfalso. apply Hin'. by constructor.
      * apply elem_of_cons in Hin' as [?|?]; done.
Qed.

Lemma od_set_NoDup k v d : NoDup (od_keys d) -> NoDup (od_keys (od_set k v d)).
Proof.
  rewrite od_keys_set. unfold add_key. intros Hnd.
  destruct (decide (k ∈ od_keys d)); [done|].
  apply NoDup_app. split; [done|]. split.
  - intros x Hx Hx'. apply list_elem_of_singleton in Hx' as ->. done.
  - apply NoDup_singleton.
Qed.
End odict_facts.


Lemma add_key_present acc k : k ∈ acc -> add_key acc k = acc.
Proof. intros H. unfold add_key. by rewrite decide_True. Qed.

(** ** Assignments into the catalog *)


Lemma cat_setitem_get cat r a v c :
  cat_setitem cat r a v = Ok c -> cat_getitem c r a = Some v.
Proof.
  unfold cat_setitem, cat_getitem. destruct cat as [| | | | |d]; try done.
  destruct (od_get r d) as [[| | | | |x]|]; try done; intros [= <-];
    rewrite od_get_set_eq.
  - apply od_get_set_eq.
  - simpl. by rewrite decide_True.
Qed.

Lemma cat_setitem_get_other_repo cat r a v c r' a' :
  cat_setitem cat r a v = Ok c -> r <> r' ->
  cat_getitem c r' a' = cat_getitem cat r' a'.
Proof.
  unfold cat_setitem, cat_getitem. destruct cat as [| | | | |d]; try done.
  destruct (od_get r d) as [[| | | | |x]|]; try done; intros [= <-] Hne;
    by rewrite od_get_set_ne.
Qed.

Lemma cat_setitem_get_other_attr cat r a v c a' :
  cat_setitem cat r a v = Ok c -> a <> a' -> cat_ready cat r ->
  cat_getitem c r a' = cat_getitem cat r a'.
Proof.
  unfold cat_setitem, cat_getitem, cat_ready. destruct cat as [| | | | |d]; try done.
  destruct (od_get r d) as [[| | | | |x]|]; try done; intros [= <-] Hne _.
  rewrite od_get_set_eq. by apply od_get_set_ne.
Qed.

Lemma cat_setitem_keys cat r a v c :
  cat_setitem cat r a v = Ok c -> cat_keys c = add_key (cat_keys cat) r.
Proof.
  unfold cat_setitem, cat_keys. destruct cat as [| | | | |d]; try done.
  destruct (od_get r d) as [[| | | | |x]|]; try done; intros [= <-];
    apply od_keys_set.
Qed.

Lemma cat_setitem_ready_after cat r a v c :
  cat_setitem cat r a v = Ok c -> cat_ready c r.
Proof.
  unfold cat_setitem, cat_ready. destruct cat as [| | | | |d]; try done.
  destruct (od_get r d) as [[| | | | |x]|]; try done; intros [= <-];
    by rewrite od_get_set_eq.
Qed.

Lemma cat_ready_keys cat r : cat_ready cat r -> r ∈ cat_keys cat.
Proof.
  unfold cat_ready, cat_keys. destruct cat as [| | | | |d]; try done.
  destruct (od_get r d) as [x|] eqn:Hget; [|done].
  intros _. by eapply od_get_Some_keys.
Qed.

Lemma set_attr_run r a v b w :
  set_attr r a v (b, w) =
  match cat_setitem (catalog b) r a v with
  | Ok c => (Ok tt, (with_catalog b c, w))
  | Raise e => (Raise e, (b, w))
  end.
Proof. unfold set_attr. simpl. by destruct (cat_setitem _ _ _ _). Qed.

(** ** The attribute resolver *)

(** Resolving an attribute leaves the builder and the files alone. *)
Lemma resolve_frame E p attr config b w r b' w' :
  resolve E p attr config (b, w) = (r, (b', w')) -> b' = b /\ files w' = files w.
Proof.
  unfold resolve. rewrite bind_run. unfold lift.
  destruct (getitem config "type") as [ty|e]; [|by intros [= <- <- <-]].
  destruct (is_str ty "github_file").
  - rewrite bind_run.
    destruct (get_from_github_api E p config); [|by intros [= <- <- <-]].
    rewrite bind_run.
    destruct (getitem config "source"); by intros [= <- <- <-].
  - rewrite bind_run. destruct (is_str ty "html").
    + rewrite bind_run.
      destruct (getitem config "source"); [|by intros [= <- <- <-]].
      rewrite bind_run.
      destruct (getitem config "data"); by intros [= <- <- <-].
    + rewrite bind_run. unfold print. simpl. by intros [= <- <- <-].
Qed.




(** ** The loop over the entries of a descriptor *)

Lemma load_attrs_frame E p items b w res b' w' :
  load_attrs E p items (b, w) = (res, (b', w')) ->
  cat_ready (catalog b) (repo p) ->
  cat_ready (catalog b') (repo p) /\
  cat_keys (catalog b') = cat_keys (catalog b) /\
  (forall r a, r <> repo p -> cat_getitem (catalog b') r a = cat_getitem (catalog b) r a) /\
  (forall a, a ∉ od_keys items ->
     cat_getitem (catalog b') (repo p) a = cat_getitem (catalog b) (repo p) a).
Proof.
  revert b w. induction items as [|[attr config] items IH]; intros b w.
  - simpl. intros [= <- <- <-]. auto.
  - cbn [load_attrs]. rewrite bind_run.
    destruct (resolve E p attr config (b, w)) as [r [b1 w1]] eqn:Hres.
    apply resolve_frame in Hres as [-> _].
    destruct r as [v|e]; [|by intros [= <- <- <-]].
    rewrite bind_run, set_attr_run.
    destruct (cat_setitem (catalog b) (repo p) attr v) as [c|e] eqn:Hc;
      [|by intros [= <- <- <-]].
    intros Hrest Hready.
    pose proof (cat_setitem_ready_after _ _ _ _ _ Hc) as Hready1.
    destruct (IH _ _ Hrest Hready1) as (Hr & Hk & Hother & Hsame).
    simpl in Hk, Hother, Hsame.
    split; [done|]. split.
    + rewrite Hk, (cat_setitem_keys _ _ _ _ _ Hc).
      apply add_key_present. by apply cat_ready_keys.
    + split.
      * intros r a Hne. rewrite Hother by done.
        eapply cat_setitem_get_other_repo; eauto.
      * intros a Ha. unfold od_keys in Ha. rewrite fmap_cons in Ha.
        apply not_elem_of_cons in Ha as [Hne Ha]. simpl in Hne.
        rewrite Hsame by done.
        eapply cat_setitem_get_other_attr; eauto.
Qed.

(** ** The body of the loop over the projects *)

Lemma load_project_ok E p b w b' w' :
  load_project E p (b, w) = (Ok tt, (b', w')) ->
  exists items,
    descriptor E p = Some items /\
    cat_keys (catalog b') = add_key (cat_keys (catalog b)) (repo p) /\
    (forall r a, r <> repo p -> cat_getitem (catalog b') r a = cat_getitem (catalog b) r a) /\
    ("name" ∉ od_keys items ->
       cat_getitem (catalog b') (repo p) "name" = Some (name_attr p)).
Proof.
  unfold load_project, descriptor. rewrite bind_run. unfold lift at 1.
  destruct (_get_from_github_api E (org p) (repo p) (branch p) "PSL_catalog.json")
    as [text|e]; [|discriminate].
  rewrite bind_run. unfold lift at 1.
  destruct (json_loads text) as [j|]; [|discriminate].
  rewrite bind_run, set_attr_run.
  destruct (cat_setitem (catalog b) (repo p) "name" (name_attr p)) as [c|e] eqn:Hc;
    [|discriminate].
  rewrite bind_run. unfold set_repo at 1. cbn [fst snd].
  rewrite bind_run. unfold lift at 1.
  destruct j as [| | | | |items]; try discriminate. cbn [py_items].
  intros Hattrs. exists items. split; [done|].
  apply load_attrs_frame in Hattrs; [|by eapply cat_setitem_ready_after].
  destruct Hattrs as (_ & Hk & Hother & Hsame). simpl in Hk, Hother, Hsame.
  split; [by rewrite Hk; eapply cat_setitem_keys|]. split.
  - intros r a Hne. rewrite Hother by done.
    eapply cat_setitem_get_other_repo; eauto.
  - intros Hname. rewrite Hsame by done. by eapply cat_setitem_get.
Qed.

(** ** The order of strings *)

Lemma ascii_compare_eq a b : Ascii.compare a b = Eq -> a = b.
Proof. apply Ascii.compare_eq_iff. Qed.

Lemma ascii_compare_trans c a1 a2 a3 :
  Ascii.compare a1 a2 = c -> Ascii.compare a2 a3 = c -> Ascii.compare a1 a3 = c.
Proof.
  unfold Ascii.compare. destruct c; intros H1 H2.
  - apply N.compare_eq_iff in H1, H2. apply N.compare_eq_iff. congruence.
  - rewrite N.compare_lt_iff in *. lia.
  - rewrite N.compare_gt_iff in *. lia.
Qed.

Lemma string_compare_lt_trans s1 s2 s3 :
  String.compare s1 s2 = Lt -> String.compare s2 s3 = Lt -> String.compare s1 s3 = Lt.
Proof.
  revert s2 s3. induction s1 as [|a1 s1 IH]; intros [|a2 s2] [|a3 s3]; simpl; try done.
  destruct (Ascii.compare a1 a2) eqn:H12; try done;
    destruct (Ascii.compare a2 a3) eqn:H23; try done.
  - apply ascii_compare_eq in H12 as ->, H23 as ->.
    assert (Ascii.compare a3 a3 = Eq) as -> by (unfold Ascii.compare; apply N.compare_refl).
    apply IH.
  - apply ascii_compare_eq in H12 as ->. by rewrite H23.
  - apply ascii_compare_eq in H23 as <-. by rewrite H12.
  - by rewrite (ascii_compare_trans Lt _ _ _ H12 H23).
Qed.

Lemma string_leb_trans s1 s2 s3 :
  String.leb s1 s2 = true -> String.leb s2 s3 = true -> String.leb s1 s3 = true.
Proof.
  unfold String.leb.
  destruct (String.compare s1 s2) eqn:H12; try done;
    destruct (String.compare s2 s3) eqn:H23; try done; intros _ _.
  - apply String.compare_eq_iff in H12 as ->. by rewrite H23.
  - apply String.compare_eq_iff in H12 as ->. by rewrite H23.
  - apply String.compare_eq_iff in H23 as <-. by rewrite H12.
  - by rewrite (string_compare_lt_trans _ _ _ H12 H23).
Qed.

#[local] Instance upper_le_trans : Transitive upper_le.
Proof. intros a b c. apply string_leb_trans. Qed.

(** ** [sorted] sorts, and keeps the elements *)

Section sorted_facts.
Context {A : Type} (key : A -> string).

Lemma insert_sorted_perm x l : insert_sorted key x l ≡ₚ x :: l.
Proof.
  induction l as [|y l IH]; simpl; [done|].
  destruct (String.leb (key x) (key y)); [done|].
  rewrite IH. apply Permutation_swap.
Qed.

Lemma sorted_perm l : sorted key l ≡ₚ l.
Proof.
  induction l as [|x l IH]; simpl; [done|].
  by rewrite insert_sorted_perm, IH.
Qed.


End sorted_facts.

(** ** Keys in insertion order *)





(** ** The loop over the projects *)

Lemma for_each_load_ok E l b w b' w' :
  for_each l (load_project E) (b, w) = (Ok tt, (b', w')) ->
  cat_keys (catalog b') = foldl add_key (cat_keys (catalog b)) (repo <$> l) /\
  forall p,
    (forall q items, q ∈ l -> repo q = repo p -> descriptor E q = Some items ->
                     "name" ∉ od_keys items) ->
    (exists q, q ∈ l /\ repo q = repo p) \/
      cat_getitem (catalog b) (repo p) "name" = Some (name_attr p) ->
    cat_getitem (catalog b') (repo p) "name" = Some (name_attr p).
Proof.
  revert b w. induction l as [|q l IH]; intros b w.
  - simpl. intros [= <- <-]. split; [done|].
    intros p _ [(q & Hq & _)|H]; [by apply elem_of_nil in Hq|done].
  - cbn [for_each]. rewrite bind_run.
    destruct (load_project E q (b, w)) as [[[]|e] [b1 w1]] eqn:Hq; [|discriminate].
    intros Hrest. apply load_project_ok in Hq as (items & Hdesc & Hk & Hother & Hname).
    destruct (IH _ _ Hrest) as [Hkeys Hnames].
    split; [by rewrite Hkeys, fmap_cons, Hk|].
    intros p Hclean Hstart. apply Hnames.
    + intros q' items' Hin. apply Hclean. by constructor.
    + destruct (decide (repo q = repo p)) as [Heq|Hne].
      * right. unfold name_attr. rewrite <- Heq. apply Hname.
        apply (Hclean q items); [constructor|done|done].
      * destruct Hstart as [(q' & Hin & Hq')|Hstart].
        -- left. exists q'. split; [|done].
           apply elem_of_cons in Hin as [->|Hin]; [done|exact Hin].
        -- right. rewrite Hother by done. exact Hstart.
Qed.

Lemma load_catalog_network E b w :
  develop b = false ->
  load_catalog E (b, w) =
  for_each (sorted (fun x => str_upper (repo x)) (projects b)) (load_project E) (b, w).
Proof.
  intros Hdev. unfold load_catalog. rewrite bind_run. unfold get_self. simpl.
  by rewrite Hdev.
Qed.






(** ** The region between two markers *)

Lemma append_cons c s t : String c s +:+ t = String c (s +:+ t).
Proof. reflexivity. Qed.

Lemma append_nil_l t : "" +:+ t = t.
Proof. reflexivity. Qed.

Lemma prefix_nil s : String.prefix "" s = true.
Proof. by destruct s. Qed.

Lemma str_drop_app pre s n :
  str_drop (String.length pre + n) (pre +:+ s) = str_drop n s.
Proof. induction pre as [|c pre IH]; simpl; [done|exact IH]. Qed.

Lemma prefix_app_long c1 c2 c3 c4 c5 r s :
  String.prefix "START" (String c1 (String c2 (String c3 (String c4 (String c5 r)))) +:+ s)
  = String.prefix "START" (String c1 (String c2 (String c3 (String c4 (String c5 r))))).
Proof.
  rewrite !append_cons. cbn [String.prefix].
  repeat (destruct (ascii_dec _ _); [|reflexivity]).
  by rewrite !prefix_nil.
Qed.

(** The marker cannot begin inside [pre] and end in the marker that
    follows it. *)
Lemma prefix_no_straddle c pre rest :
  String.prefix "START" (String c pre) = false ->
  String.prefix "START" (String c pre +:+ "START" +:+ rest) = false.
Proof.
  destruct pre as [|c2 [|c3 [|c4 [|c5 r]]]].
  1-4: intros _; rewrite ?append_cons, ?append_nil_l; cbn [String.prefix];
       repeat (destruct (ascii_dec _ _) as [e|]; [try discriminate e; clear e|reflexivity]).
  intros H. rewrite prefix_app_long. exact H.
Qed.

Lemma prefix_app_self s t : String.prefix s (s +:+ t) = true.
Proof.
  induction s as [|c s IH]; [apply prefix_nil|].
  rewrite append_cons. cbn [String.prefix].
  destruct (ascii_dec c c); [exact IH|done].
Qed.

Lemma str_find_unfold needle hay :
  str_find needle hay =
  if String.prefix needle hay then Some 0
  else match hay with
       | "" => None
       | String _ r =>
           match str_find needle r with
           | Some i => Some (S i)
           | None => None
           end
       end.
Proof. by destruct hay. Qed.

Lemma str_find_here s t : str_find s (s +:+ t) = Some 0.
Proof. by rewrite str_find_unfold, prefix_app_self. Qed.

Lemma str_find_first pre rest :
  str_find "START" pre = None ->
  str_find "START" (pre +:+ "START" +:+ rest) = Some (String.length pre).
Proof.
  induction pre as [|c pre IH]; [intros _; apply (str_find_here "START" rest)|].
  intros H. rewrite str_find_unfold in H.
  destruct (String.prefix "START" (String c pre)) eqn:Hpre; [discriminate|].
  destruct (str_find "START" pre) eqn:Hfind; [discriminate|].
  rewrite str_find_unfold, (prefix_no_straddle c pre rest Hpre).
  rewrite append_cons, IH by done. reflexivity.
Qed.

Lemma parse_section_hello pre suf :
  str_find "START" pre = None ->
  parse_section (pre +:+ "START" +:+ hello_region +:+ "END" +:+ suf) "START" "END"
  = Some hello_region.
Proof.
  intros Hpre. unfold parse_section.
  rewrite (str_find_first pre _ Hpre).
  rewrite str_drop_app.
  change (str_drop (String.length "START") ("START" +:+ ?t)) with t.
  unfold hello_region. rewrite !append_cons, !append_nil_l.
  do 2 (rewrite ?append_cons, ?append_nil_l; cbn [str_find String.prefix];
        repeat (destruct (ascii_dec _ _) as [e|n];
                [try discriminate e; clear e
                |try (exfalso; apply n; reflexivity); clear n])).
  rewrite prefix_nil. reflexivity.
Qed.

(** C5.  With the region resolver of the spec, a [github_file]
    attribute whose file reads [pre START \n HELLO \n END suf], where
    [START] does not occur in [pre], and whose markers are [START] and
    [END], resolves to the value ["\nHELLO\n"]: the text strictly
    between the first [START] and the first [END] after it.  Its source
    is the URL of the file. *)
Theorem region_between_markers E fetch absent p attr config path pre suf b w :
  get_from_github_api E = get_from_github_api_spec fetch absent ->
  getitem config "type" = Ok (JStr "github_file") ->
  getitem config "source" = Ok (JStr path) ->
  getitem config "start_header" = Ok (JStr "START") ->
  getitem config "end_header" = Ok (JStr "END") ->
  fetch (org p) (repo p) (branch p) path =
    Ok (pre +:+ "START" +:+ String newline ("HELLO" +:+ String newline "") +:+ "END" +:+ suf) ->
  str_find "START" pre = None ->
  resolve E p attr config (b, w) =
  (Ok (JObj [("source",
              JStr ("https://github.com/" +:+ org p +:+ "/" +:+ repo p +:+ "/blob/"
                      +:+ branch p +:+ "/" +:+ path));
             ("value", JStr (String newline ("HELLO" +:+ String newline "")))]),
   (b, w)).
Proof.
  intros HE Hty Hsrc Hstart Hend Hfetch Hpre.
  unfold resolve. rewrite bind_run. unfold lift. rewrite Hty.
  cbn [is_str]. rewrite bool_decide_eq_true_2 by done.
  rewrite bind_run, HE. unfold get_from_github_api_spec.
  rewrite Hsrc, Hstart, Hend, Hfetch.
  pose proof (parse_section_hello pre suf Hpre) as Hsec.
  unfold hello_region in Hsec. rewrite Hsec.
  rewrite bind_run. reflexivity.
Qed.

Lemma region_between_markers_witness :
  let text := "..." +:+ "START" +:+ String newline ("HELLO" +:+ String newline "")
                    +:+ "END" +:+ "..." in
  let config := JObj [("type", JStr "github_file"); ("source", JStr "README.md");
                      ("start_header", JStr "START"); ("end_header", JStr "END")] in
  exists res,
    resolve (region_env text) alpha "project_overview" config
      (Builder [alpha] "/srv/out" (JObj []) ∅ false, empty_world) = (Ok res, (Builder [alpha] "/srv/out" (JObj []) ∅ false, empty_world)) /\
    getitem res "value" = Ok (JStr (String newline ("HELLO" +:+ String newline ""))) /\
    getitem res "source" =
      Ok (JStr "https://github.com/PSLmodels/alpha/blob/master/README.md").
Proof.
  intros text config. eexists. split.
  - apply (region_between_markers (region_env text) (fun _ _ _ _ => Ok text)
             (Raise (FetchError "marker")) alpha "project_overview" config
             "README.md" "..." "...");
      reflexivity.
  - split; reflexivity.
Defined.

(** ** Strings *)

Lemma append_assoc s t u : (s +:+ t) +:+ u = s +:+ t +:+ u.
Proof. induction s as [|c s IH]; [done|]. by rewrite !append_cons, IH. Qed.



(** ** Whitespace *)


Lemma solid_append s t : solid s -> solid (s +:+ t).
Proof. by destruct s. Qed.



(** ** Strings in JSON text *)




(** ** Integers in JSON text *)







(** ** Where a value begins *)







(** ** Unfolding the decoder *)

Lemma parse_elems_unfold f s :
  parse_elems (S f) s =
  match parse_value f s with
  | None => None
  | Some (v, r) =>
      match skip_ws r with
      | "" => None
      | String c r' =>
          if Ascii.eqb c "]" then Some ([v], r')
          else if Ascii.eqb c "," then
            match parse_elems f (skip_ws r') with
            | Some (vs, r'') => Some (v :: vs, r'')
            | None => None
            end
          else None
      end
  end.
Proof. reflexivity. Qed.







(** ** The elements of an array *)



(** ** The members of an object *)





(** ** Dictionaries from pairs *)

Lemma od_set_fresh {V : Type} k (v : V) d :
  k ∉ od_keys d -> od_set k v d = d ++ [(k, v)].
Proof.
  unfold od_keys. induction d as [|[k0 v0] d IH]; [done|].
  rewrite fmap_cons. intros [Hne Hd]%not_elem_of_cons. cbn [od_set].
  rewrite decide_False by done. by rewrite IH.
Qed.

Lemma dict_of_pairs_NoDup kvs : NoDup (kvs.*1) -> dict_of_pairs kvs = kvs.
Proof.
  unfold dict_of_pairs.
  assert (forall acc, NoDup ((acc ++ kvs).*1) ->
            foldl (fun d kv => od_set (fst kv) (snd kv) d) acc kvs = acc ++ kvs) as Hgen.
  { induction kvs as [|[k v] kvs IH]; intros acc Hnd; cbn [foldl]; [by rewrite app_nil_r|].
    rewrite od_set_fresh.
    - rewrite IH; rewrite <- app_assoc; done.
    - rewrite fmap_app, fmap_cons in Hnd.
      apply NoDup_app in Hnd as (_ & Hd & _). intros Hin.
      apply (Hd k Hin). constructor. }
  intros Hnd. by apply (Hgen []).
Qed.

(** ** Induction on values *)


Lemma json_wf_arr xs : json_wf (JArr xs) <-> Forall json_wf xs.
Proof.
  cbn [json_wf]. induction xs as [|x xs IH]; [by split; [constructor|]|].
  rewrite Forall_cons, <- IH. done.
Qed.

Lemma json_wf_obj kvs :
  json_wf (JObj kvs) <-> NoDup (kvs.*1) /\ Forall (fun kv => json_wf (snd kv)) kvs.
Proof.
  cbn [json_wf]. apply and_iff_compat_l.
  induction kvs as [|kv kvs IH]; [by split; [constructor|]|].
  rewrite Forall_cons, <- IH. done.
Qed.

(** ** Decoding what was encoded *)


(** ** The text is long enough to pay for its decoding *)






(** ** Decoded values are proper values *)

Lemma od_set_values {V : Type} (P : V -> Prop) k v (d : list (string * V)) :
  P v -> Forall (fun kv => P (snd kv)) d -> Forall (fun kv => P (snd kv)) (od_set k v d).
Proof.
  intros Hv. induction 1 as [|[k0 v0] d H0 Hd IH]; cbn [od_set].
  - by repeat constructor.
  - destruct (decide (k = k0)); constructor; auto.
Qed.

Lemma od_get_values {V : Type} (P : V -> Prop) k v (d : list (string * V)) :
  Forall (fun kv => P (snd kv)) d -> od_get k d = Some v -> P v.
Proof.
  induction 1 as [|[k0 v0] d H0 Hd IH]; cbn [od_get]; [done|].
  destruct (decide (k = k0)); [by intros [= <-]|exact IH].
Qed.

Lemma json_wf_od_set k v d :
  json_wf (JObj d) -> json_wf v -> json_wf (JObj (od_set k v d)).
Proof.
  rewrite !json_wf_obj. intros [Hnd Hd] Hv. split.
  - by apply (od_set_NoDup k v d).
  - by apply od_set_values.
Qed.

Lemma dict_of_pairs_wf pairs :
  Forall (fun kv => json_wf (snd kv)) pairs -> json_wf (JObj (dict_of_pairs pairs)).
Proof.
  unfold dict_of_pairs.
  assert (forall acc, json_wf (JObj acc) ->
            Forall (fun kv => json_wf (snd kv)) pairs ->
            json_wf (JObj (foldl (fun d kv => od_set (fst kv) (snd kv) d) acc pairs))) as Hgen.
  { induction pairs as [|[k v] pairs IH]; intros acc Hacc Hall; cbn [foldl]; [done|].
    apply Forall_cons in Hall as [Hv Hall].
    apply IH; [|done]. by apply json_wf_od_set. }
  apply Hgen. apply json_wf_obj. split; constructor.
Qed.

Lemma parse_number_wf s v r : parse_number s = Some (v, r) -> json_wf v.
Proof.
  unfold parse_number. destruct s as [|c s]; [done|].
  destruct (Ascii.eqb c "-").
  - destruct (parse_unsigned s) as [[n r']|]; [|done]. by intros [= <- _].
  - destruct (parse_unsigned (String c s)) as [[n r']|]; [|done]. by intros [= <- _].
Qed.

Ltac split_decoder H :=
  repeat (match type of H with
          | context [if ?b then _ else _] => destruct b eqn:?
          | context [match ?x with _ => _ end] => destruct x eqn:?
          end; try discriminate H).

Lemma parse_wf fuel :
  (forall s v r, parse_value fuel s = Some (v, r) -> json_wf v) /\
  (forall s vs r, parse_elems fuel s = Some (vs, r) -> Forall json_wf vs) /\
  (forall s kvs r, parse_members fuel s = Some (kvs, r) ->
                   Forall (fun kv => json_wf (snd kv)) kvs).
Proof.
  induction fuel as [|f (IHv & IHe & IHm)]; [by repeat split|].
  split; [|split].
  - intros s v r H. cbn [parse_value] in H. split_decoder H;
      try (injection H as <- <-);
      first [ by eapply parse_number_wf
            | exact I
            | by (apply json_wf_obj; split; constructor)
            | by (eapply dict_of_pairs_wf, IHm; eassumption)
            | by (eapply json_wf_arr, IHe; eassumption) ].
  - intros s vs r H. rewrite parse_elems_unfold in H. split_decoder H;
      injection H as <- <-; repeat constructor; eauto.
  - intros s kvs r H. cbn [parse_members] in H. split_decoder H;
      injection H as <- <-; repeat constructor; cbn [snd]; eauto.
Qed.

Lemma json_loads_wf s v : json_loads s = Some v -> json_wf v.
Proof.
  unfold json_loads.
  destruct (parse_value _ _) as [[v' r]|] eqn:Hparse; [|done].
  destruct (decide (skip_ws r = "")); [|done]. intros [= <-].
  eapply (proj1 (parse_wf _)); eauto.
Qed.

(** ** Assembled catalogs are proper values *)










(** ** Dumping the catalog *)

Lemma dump_catalog_run out b w :
  dump_catalog out (b, w) =
  (Ok (json_dumps_indent4 (catalog b)),
   (b, match out with
       | Some path => World (<[path := json_dumps_indent4 (catalog b)]> (files w)) (stdout w)
       | None => w
       end)).
Proof.
  unfold dump_catalog. rewrite bind_run. unfold get_self. cbn [fst snd].
  rewrite bind_run. destruct out as [path|]; reflexivity.
Qed.







(** * Further properties of the builder *)

(** ** The resolver, branch by branch *)

(** What [resolve] returns is [resolve_value]; it leaves the builder and
    the files as they are and prints at most the one message. *)
Lemma resolve_run E p attr config b w :
  exists out,
    resolve E p attr config (b, w) = (resolve_value E p config, (b, World (files w) out)) /\
    (out = stdout w \/ out = stdout w ++ [missing_msg E p attr config]).
Proof.
  unfold resolve, resolve_value. rewrite bind_run. unfold lift.
  destruct (getitem config "type") as [ty|e].
  2: { exists (stdout w). destruct w. auto. }
  destruct (is_str ty "github_file").
  - rewrite bind_run.
    destruct (get_from_github_api E p config) as [value|e].
    2: { exists (stdout w). destruct w. auto. }
    rewrite bind_run.
    destruct (getitem config "source"); exists (stdout w); destruct w; auto.
  - rewrite bind_run. destruct (is_str ty "html").
    + rewrite bind_run.
      destruct (getitem config "source") as [src|e].
      2: { exists (stdout w). destruct w. auto. }
      rewrite bind_run.
      destruct (getitem config "data"); exists (stdout w); destruct w; auto.
    + rewrite bind_run. unfold print. cbn [fst snd].
      exists (stdout w ++ [missing_msg E p attr config]). auto.
Qed.

(** X1. An [html] entry is copied: its [source] and its [data], whatever
    values they are, become the source and the value of the attribute,
    and nothing is fetched or printed. *)
Theorem resolve_html E p attr config src data b w :
  getitem config "type" = Ok (JStr "html") ->
  getitem config "source" = Ok src ->
  getitem config "data" = Ok data ->
  resolve E p attr config (b, w) = (Ok (JObj [("source", src); ("value", data)]), (b, w)).
Proof.
  intros Hty Hsrc Hdata. unfold resolve.
  rewrite bind_run. unfold lift. rewrite Hty. cbn [is_str].
  rewrite bool_decide_eq_false_2 by discriminate.
  rewrite bind_run. cbn [is_str]. rewrite bool_decide_eq_true_2 by done.
  rewrite bind_run, Hsrc, bind_run, Hdata. reflexivity.
Qed.

Lemma resolve_html_witness :
  resolve offline alpha "core_maintainers" inline_entry (network_builder, empty_world)
  = (Ok (JObj [("source", JStr "README"); ("value", JNull)]),
     (network_builder, empty_world)).
Proof.
  apply (resolve_html offline alpha "core_maintainers" inline_entry (JStr "README") JNull);
    reflexivity.
Defined.

(** X2. A [github_file] entry gets the value of the region resolver and, as
    its source, the address of the file in the project's repository and
    branch. *)
Theorem resolve_github_file E p attr config path value b w :
  getitem config "type" = Ok (JStr "github_file") ->
  get_from_github_api E p config = Ok value ->
  getitem config "source" = Ok (JStr path) ->
  resolve E p attr config (b, w) =
  (Ok (JObj [("source",
              JStr ("https://github.com/" +:+ org p +:+ "/" +:+ repo p +:+ "/blob/"
                      +:+ branch p +:+ "/" +:+ path));
             ("value", value)]),
   (b, w)).
Proof.
  intros Hty Hval Hsrc. unfold resolve.
  rewrite bind_run. unfold lift. rewrite Hty. cbn [is_str].
  rewrite bool_decide_eq_true_2 by done.
  rewrite bind_run, Hval, bind_run, Hsrc. reflexivity.
Qed.

(** X3. The region resolver is asked before the [source] of the entry is
    looked at: when it raises, that exception is the one that
    propagates, also for an entry that has no [source]. *)
Theorem resolve_github_file_raises E p attr config e b w :
  getitem config "type" = Ok (JStr "github_file") ->
  get_from_github_api E p config = Raise e ->
  resolve E p attr config (b, w) = (Raise e, (b, w)).
Proof.
  intros Hty Hval. unfold resolve.
  rewrite bind_run. unfold lift. rewrite Hty. cbn [is_str].
  rewrite bool_decide_eq_true_2 by done.
  rewrite bind_run, Hval. reflexivity.
Qed.

Lemma resolve_github_file_witness :
  let text := "START" +:+ hello_region +:+ "END" in
  resolve (region_env text) alpha "project_overview" file_entry (network_builder, empty_world)
  = (Ok (JObj [("source", JStr "https://github.com/PSLmodels/alpha/blob/master/README.md");
               ("value", JStr hello_region)]),
     (network_builder, empty_world)).
Proof.
  intros text.
  apply (resolve_github_file (region_env text) alpha "project_overview" file_entry
           "README.md" (JStr hello_region)); reflexivity.
Defined.

Lemma resolve_github_file_raises_witness :
  resolve offline alpha "project_overview" (JObj [("type", JStr "github_file")])
    (network_builder, empty_world)
  = (Raise (FetchError "offline"), (network_builder, empty_world)).
Proof.
  apply (resolve_github_file_raises offline alpha "project_overview"
           (JObj [("type", JStr "github_file")]) (FetchError "offline")); reflexivity.
Defined.



(** X5. Whatever the entry, a resolved attribute is a dictionary with
    exactly the fields [source] and [value], in this order; and when the
    resolver raises it has printed nothing. *)
Theorem resolve_outcome E p attr config b w r st :
  resolve E p attr config (b, w) = (r, st) ->
  match r with
  | Ok v => exists s x, v = JObj [("source", s); ("value", x)]
  | Raise _ => st = (b, w)
  end.
Proof.
  unfold resolve. rewrite bind_run. unfold lift.
  destruct (getitem config "type") as [ty|e]; [|by intros [= <- <-]].
  destruct (is_str ty "github_file").
  - rewrite bind_run.
    destruct (get_from_github_api E p config) as [value|e]; [|by intros [= <- <-]].
    rewrite bind_run.
    destruct (getitem config "source"); intros [= <- <-]; [|done].
    by eexists _, _.
  - rewrite bind_run. destruct (is_str ty "html").
    + rewrite bind_run.
      destruct (getitem config "source") as [src|e]; [|by intros [= <- <-]].
      rewrite bind_run.
      destruct (getitem config "data"); intros [= <- <-]; [|done].
      by eexists _, _.
    + rewrite bind_run. unfold print. cbn [fst snd]. intros [= <- <-].
      by eexists _, _.
Qed.

Lemma resolve_outcome_witness :
  exists s x,
    JObj [("source", JStr "README"); ("value", JNull)] = JObj [("source", s); ("value", x)].
Proof.
  exact (resolve_outcome offline alpha "core_maintainers" inline_entry
           network_builder empty_world _ _ eq_refl).
Defined.

(** ** The entries of the catalog *)

Lemma cat_entry_getitem cat r a : cat_entry cat r = Some a -> getitem cat r = Ok (JObj a).
Proof.
  unfold cat_entry, getitem. destruct cat as [| | | | |d]; try done.
  destruct (od_get r d) as [[| | | | |x]|]; try done. by intros [= ->].
Qed.

Lemma cat_entry_getitem_attr cat r a k :
  cat_entry cat r = Some a -> cat_getitem cat r k = od_get k a.
Proof.
  unfold cat_entry, cat_getitem. destruct cat as [| | | | |d]; try done.
  destruct (od_get r d) as [[| | | | |x]|]; try done. by intros [= ->].
Qed.

Lemma cat_setitem_entry cat r a v c :
  cat_setitem cat r a v = Ok c ->
  cat_entry c r = Some (od_set a v (default [] (cat_entry cat r))) /\
  (forall r', r' <> r -> cat_entry c r' = cat_entry cat r').
Proof.
  unfold cat_setitem, cat_entry. destruct cat as [| | | | |d]; try done.
  destruct (od_get r d) as [[| | | | |x]|] eqn:Hget; try done; intros [= <-];
    (split; [by rewrite od_get_set_eq|]); intros r' Hne; by rewrite od_get_set_ne.
Qed.

Lemma cat_setitem_lookup cat r a v c r' a' x :
  cat_setitem cat r a v = Ok c ->
  cat_getitem c r' a' = Some x -> x = v \/ cat_getitem cat r' a' = Some x.
Proof.
  intros Hc Hx. destruct (decide (r' = r)) as [->|Hr].
  - destruct (decide (a' = a)) as [->|Ha].
    + left. rewrite (cat_setitem_get _ _ _ _ _ Hc) in Hx. congruence.
    + right. destruct (cat_setitem_entry _ _ _ _ _ Hc) as [Hentry _].
      rewrite (cat_entry_getitem_attr _ _ _ _ Hentry), od_get_set_ne in Hx by done.
      unfold cat_entry in Hx. unfold cat_getitem.
      destruct cat as [| | | | |d]; try done.
      destruct (od_get r d) as [[| | | | |y]|]; try done.
  - right. by rewrite (cat_setitem_get_other_repo _ _ _ _ _ _ a' Hc) in Hx.
Qed.

Lemma cat_shape_setitem cat r a v :
  cat_shape cat -> exists c, cat_setitem cat r a v = Ok c /\ cat_shape c.
Proof.
  unfold cat_shape, cat_setitem. destruct cat as [| | | | |d]; try done. intros Hd.
  destruct (od_get r d) as [x|] eqn:Hget.
  - destruct (od_get_values (fun v => exists a, v = JObj a) _ _ _ Hd Hget) as [y ->].
    eexists. split; [reflexivity|]. cbn beta iota.
    apply (od_set_values (fun v => exists a, v = JObj a)); eauto.
  - eexists. split; [reflexivity|]. cbn beta iota.
    apply (od_set_values (fun v => exists a, v = JObj a)); eauto.
Qed.

Lemma cat_shape_fresh : cat_shape (JObj []).
Proof. constructor. Qed.

(** ** What one loop over a descriptor does *)

Lemma resolve_value_fields E p config v :
  resolve_value E p config = Ok v -> exists s x, v = JObj [("source", s); ("value", x)].
Proof.
  unfold resolve_value.
  destruct (getitem config "type") as [ty|]; [|done].
  destruct (is_str ty "github_file").
  - destruct (get_from_github_api E p config); [|done].
    destruct (getitem config "source"); [|done]. intros [= <-]. by eexists _, _.
  - destruct (is_str ty "html").
    + destruct (getitem config "source"); [|done].
      destruct (getitem config "data"); [|done]. intros [= <-]. by eexists _, _.
    + intros [= <-]. by eexists _, _.
Qed.

Lemma load_attrs_exact E p items b w b' w' :
  load_attrs E p items (b, w) = (Ok tt, (b', w')) ->
  exists vals,
    resolved_entries E p items vals /\
    b' = with_catalog b (catalog b') /\
    files w' = files w /\
    (forall r, r <> repo p -> cat_entry (catalog b') r = cat_entry (catalog b) r) /\
    (forall a0, cat_entry (catalog b) (repo p) = Some a0 ->
       cat_entry (catalog b') (repo p)
       = Some (foldl (fun d kv => od_set (fst kv) (snd kv) d) a0 vals)).
Proof.
  revert b w. induction items as [|[attr config] items IH]; intros b w.
  - cbn [load_attrs]. intros [= <- <-]. exists []. repeat split; try done.
    + constructor.
    + by destruct b.
  - cbn [load_attrs]. rewrite bind_run.
    destruct (resolve_run E p attr config b w) as (out & -> & _).
    destruct (resolve_value E p config) as [v|e] eqn:Hv; [|discriminate].
    rewrite bind_run, set_attr_run.
    destruct (cat_setitem (catalog b) (repo p) attr v) as [c|e] eqn:Hc; [|discriminate].
    intros Hrest. destruct (IH _ _ Hrest) as (vals & Hvals & Hb' & Hfiles & Hother & Hentry).
    destruct (cat_setitem_entry _ _ _ _ _ Hc) as [Hc1 Hc2].
    exists ((attr, v) :: vals). repeat split.
    + constructor; [by split|exact Hvals].
    + rewrite Hb' at 1. by destruct b.
    + exact Hfiles.
    + intros r Hr. rewrite (Hother r Hr). by apply Hc2.
    + intros a0 Ha0. cbn [foldl fst snd].
      apply Hentry. cbn [catalog with_catalog]. rewrite Hc1, Ha0. reflexivity.
Qed.

Lemma load_project_exact E p b w b' w' :
  load_project E p (b, w) = (Ok tt, (b', w')) ->
  exists items vals,
    descriptor E p = Some items /\
    resolved_entries E p items vals /\
    projects b' = projects b /\ index_dir b' = index_dir b /\ develop b' = develop b /\
    repos b' = <[repo p := repo_url (org p) (repo p)]> (repos b) /\
    files w' = files w /\
    (forall r, r <> repo p -> cat_entry (catalog b') r = cat_entry (catalog b) r) /\
    cat_entry (catalog b') (repo p)
    = Some (foldl (fun d kv => od_set (fst kv) (snd kv) d)
              (od_set "name" (name_attr p) (default [] (cat_entry (catalog b) (repo p))))
              vals).
Proof.
  unfold load_project, descriptor. rewrite bind_run. unfold lift at 1.
  destruct (_get_from_github_api E (org p) (repo p) (branch p) "PSL_catalog.json")
    as [text|e]; [|discriminate].
  rewrite bind_run. unfold lift at 1.
  destruct (json_loads text) as [j|]; [|discriminate].
  rewrite bind_run, set_attr_run.
  destruct (cat_setitem (catalog b) (repo p) "name" (name_attr p)) as [c|e] eqn:Hc;
    [|discriminate].
  rewrite bind_run. unfold set_repo at 1. cbn [fst snd].
  rewrite bind_run. unfold lift at 1.
  destruct j as [| | | | |items]; try discriminate. cbn [py_items].
  intros Hattrs.
  destruct (load_attrs_exact _ _ _ _ _ _ _ Hattrs)
    as (vals & Hvals & Hb' & Hfiles & Hother & Hentry).
  destruct (cat_setitem_entry _ _ _ _ _ Hc) as [Hc1 Hc2].
  cbn [catalog projects index_dir develop repos with_catalog] in *.
  exists items, vals. rewrite Hb'. cbn [catalog projects index_dir develop repos with_catalog].
  repeat split; try done.
  - intros r Hr. rewrite (Hother r Hr). by apply Hc2.
  - by apply Hentry.
Qed.

Lemma for_each_load_exact E l b w b' w' :
  for_each l (load_project E) (b, w) = (Ok tt, (b', w')) ->
  projects b' = projects b /\ index_dir b' = index_dir b /\ develop b' = develop b /\
  repos b' = link_all l (repos b) /\
  files w' = files w /\
  Forall (project_loads E) l /\
  (forall r, r ∉ repo <$> l -> cat_entry (catalog b') r = cat_entry (catalog b) r) /\
  (NoDup (repo <$> l) ->
   forall p, p ∈ l ->
     exists items vals,
       descriptor E p = Some items /\
       resolved_entries E p items vals /\
       cat_entry (catalog b') (repo p)
       = Some (foldl (fun d kv => od_set (fst kv) (snd kv) d)
                 (od_set "name" (name_attr p) (default [] (cat_entry (catalog b) (repo p))))
                 vals)).
Proof.
  revert b w. induction l as [|q l IH]; intros b w.
  - cbn [for_each]. intros [= <- <-]. repeat split; try done.
    intros _ p Hp. by apply elem_of_nil in Hp.
  - cbn [for_each]. rewrite bind_run.
    destruct (load_project E q (b, w)) as [[[]|e] [b1 w1]] eqn:Hq; [|discriminate].
    intros Hrest.
    destruct (load_project_exact _ _ _ _ _ _ Hq)
      as (items & vals & Hdesc & Hvals & Hps & Hidx & Hdev & Hrepos & Hfiles & Hother & Hentry).
    destruct (IH _ _ Hrest) as (Hps' & Hidx' & Hdev' & Hrepos' & Hfiles' & Hall & Hout & Hin).
    split; [congruence|]. split; [congruence|]. split; [congruence|].
    split; [by rewrite Hrepos', Hrepos|]. split; [congruence|]. split.
    { constructor; [|exact Hall]. exists items. split; [exact Hdesc|].
      clear -Hvals. induction Hvals as [|kv rv items vals [_ Hv] _ IHv]; constructor; eauto. }
    split.
    + intros r Hr. rewrite fmap_cons in Hr. apply not_elem_of_cons in Hr as [Hne Hr].
      rewrite (Hout r Hr). by apply Hother.
    + intros Hnd p Hp. rewrite fmap_cons in Hnd. apply NoDup_cons in Hnd as [Hq' Hnd].
      apply elem_of_cons in Hp as [->|Hp].
      * exists items, vals. split; [exact Hdesc|]. split; [exact Hvals|].
        rewrite (Hout _ Hq'). exact Hentry.
      * destruct (Hin Hnd p Hp) as (items' & vals' & Hd' & Hv' & He').
        exists items', vals'. split; [exact Hd'|]. split; [exact Hv'|].
        rewrite He'. rewrite Hother; [done|].
        intros Heq. apply Hq'. rewrite <- Heq. apply list_elem_of_fmap. eauto.
Qed.

(** ** A run in network mode, as a whole *)

Lemma sorted_projects_NoDup (ps : list project) :
  NoDup (repo <$> ps) -> NoDup (repo <$> sorted (fun x => str_upper (repo x)) ps).
Proof. intros H. by rewrite sorted_perm. Qed.

Lemma descriptor_NoDup E p items : descriptor E p = Some items -> NoDup (od_keys items).
Proof.
  unfold descriptor.
  destruct (_get_from_github_api E _ _ _ _) as [text|]; [|done].
  destruct (json_loads text) as [[| | | | |d]|] eqn:Hj; try done.
  intros [= <-]. apply json_loads_wf, json_wf_obj in Hj. apply Hj.
Qed.

Lemma resolved_entries_keys E p items vals :
  resolved_entries E p items vals -> vals.*1 = items.*1.
Proof.
  induction 1 as [|kv rv items vals [Hk _] _ IH]; [done|].
  rewrite !fmap_cons. by rewrite Hk, IH.
Qed.

(** X6. The entry of a project after a run.  For a builder made for network
    mode over projects with pairwise distinct repository names, a run of
    [load_catalog] that returns leaves under the name of each project the
    dictionary built from its [name] attribute followed by the resolved
    entries of its descriptor, in the order of the descriptor.  When the
    descriptor has no entry called [name] this is the list itself:
    [name] first, then one attribute for each entry. *)
Theorem catalog_entry_content E w0 ps idx card bo b w b' w' p :
  __init__ E w0 ps idx card false bo = Ok b ->
  NoDup (repo <$> projects b) ->
  load_catalog E (b, w) = (Ok tt, (b', w')) ->
  p ∈ projects b ->
  exists items vals,
    descriptor E p = Some items /\
    resolved_entries E p items vals /\
    getitem (catalog b') (repo p)
      = Ok (JObj (dict_of_pairs (("name", name_attr p) :: vals))) /\
    ("name" ∉ od_keys items ->
     getitem (catalog b') (repo p) = Ok (JObj (("name", name_attr p) :: vals))).
Proof.
  intros Hinit Hnd Hrun Hp.
  destruct (init_fresh _ _ _ _ _ _ _ _ Hinit) as (Hdev & _ & Hcat).
  rewrite load_catalog_network in Hrun by done.
  apply for_each_load_exact in Hrun as (_ & _ & _ & _ & _ & _ & _ & Hin).
  destruct (Hin (sorted_projects_NoDup _ Hnd) p) as (items & vals & Hdesc & Hvals & Hentry).
  { by rewrite sorted_perm. }
  rewrite Hcat in Hentry. cbn [cat_entry od_get default] in Hentry.
  apply cat_entry_getitem in Hentry.
  exists items, vals. split; [exact Hdesc|]. split; [exact Hvals|]. split; [exact Hentry|].
  intros Hname. rewrite Hentry. do 2 f_equal.
  change (dict_of_pairs (("name", name_attr p) :: vals) = ("name", name_attr p) :: vals).
  apply dict_of_pairs_NoDup. rewrite fmap_cons. cbn [fst].
  rewrite (resolved_entries_keys _ _ _ _ Hvals). apply NoDup_cons. split; [exact Hname|].
  by eapply descriptor_NoDup.
Qed.

Lemma catalog_entry_content_witness :
  let E := serving (json_dumps_indent4 plain_descriptor) in
  exists b',
    (load_catalog E (network_builder, empty_world)).2.1 = b' /\
    getitem (catalog b') "zeta"
    = Ok (JObj [("name", JObj [("value", JStr "zeta"); ("source", JStr "")]);
                ("project_one_line",
                 JObj [("source", JStr "README"); ("value", JStr "A model")])]).
Proof.
  intros E.
  destruct (load_catalog E (network_builder, empty_world)) as [r [b' w']] eqn:Hrun.
  assert (r = Ok tt) as ->.
  { apply (f_equal fst) in Hrun. vm_compute in Hrun. congruence. }
  exists b'. split; [reflexivity|].
  destruct (catalog_entry_content E empty_world (Some [zeta; Alpha]) (Some "/srv/out") None
              None network_builder empty_world b' w' zeta eq_refl)
    as (items & vals & Hdesc & Hvals & _ & Hentry).
  - repeat constructor; rewrite ?list_elem_of_In; simpl; intuition discriminate.
  - exact Hrun.
  - constructor.
  - vm_compute in Hdesc. injection Hdesc as <-.
    etransitivity; [apply Hentry|].
    + unfold od_keys. rewrite list_elem_of_In. simpl. intuition discriminate.
    + inversion Hvals as [|kv rv l1 l2 [Hk Hv] Htl]; subst.
      inversion Htl; subst. destruct rv as [k v]. cbn [fst snd] in Hk, Hv. subst k.
      vm_compute in Hv. injection Hv as <-. reflexivity.
Defined.

Lemma load_project_returns E p b w :
  project_loads E p -> cat_shape (catalog b) ->
  exists b1 w1, load_project E p (b, w) = (Ok tt, (b1, w1)) /\ cat_shape (catalog b1).
Proof.
  intros (items & Hdesc & Hitems) Hshape.
  unfold load_project. unfold descriptor in Hdesc.
  rewrite bind_run. unfold lift at 1.
  destruct (_get_from_github_api E (org p) (repo p) (branch p) "PSL_catalog.json")
    as [text|]; [|done].
  rewrite bind_run. unfold lift at 1.
  destruct (json_loads text) as [[| | | | |d]|]; try done. injection Hdesc as ->.
  rewrite bind_run, set_attr_run.
  destruct (cat_shape_setitem _ (repo p) "name" (name_attr p) Hshape) as (c & -> & Hc).
  rewrite bind_run. unfold set_repo at 1. cbn [fst snd].
  rewrite bind_run. unfold lift at 1. cbn [py_items].
  set (b0 := Builder _ _ _ _ _).
  assert (cat_shape (catalog b0)) as Hb0 by done.
  clearbody b0. clear -Hitems Hb0. revert b0 w Hb0.
  induction Hitems as [|[attr config] items [v Hv] _ IHi]; intros b0 w Hshape0.
  - by eexists _, _.
  - cbn [load_attrs]. rewrite bind_run.
    destruct (resolve_run E p attr config b0 w) as (out & -> & _).
    cbn [snd] in Hv. rewrite Hv, bind_run, set_attr_run.
    destruct (cat_shape_setitem _ (repo p) attr v Hshape0) as (c & -> & Hc).
    by apply IHi.
Qed.

Lemma for_each_load_returns E l b w :
  Forall (project_loads E) l -> cat_shape (catalog b) ->
  exists b' w', for_each l (load_project E) (b, w) = (Ok tt, (b', w')) /\
                cat_shape (catalog b').
Proof.
  intros Hall. revert b w. induction Hall as [|p l Hp _ IH]; intros b w Hshape.
  - by eexists _, _.
  - cbn [for_each]. rewrite bind_run.
    destruct (load_project_returns E p b w Hp Hshape) as (b1 & w1 & -> & Hshape1).
    by apply IH.
Qed.

Lemma for_each_app {A : Type} (l1 l2 : list A) (body : A -> M unit) st :
  for_each (l1 ++ l2) body st =
  match for_each l1 body st with
  | (Ok _, st1) => for_each l2 body st1
  | (Raise e, st1) => (Raise e, st1)
  end.
Proof.
  revert st. induction l1 as [|x l1 IH]; intros st; [done|].
  cbn [for_each app]. rewrite !bind_run.
  destruct (body x st) as [[[]|e] st1]; [apply IH|done].
Qed.



(** X8. The repo link table in network mode.  After a run that returns, the
    table is the old one with the link of every project written into it,
    in sorted order; for a fresh builder over projects with pairwise
    distinct names it has one entry for each project and no other. *)
Theorem network_repo_links E w0 ps idx card bo b w b' w' :
  __init__ E w0 ps idx card false bo = Ok b ->
  load_catalog E (b, w) = (Ok tt, (b', w')) ->
  repos b' = link_all (sorted (fun x => str_upper (repo x)) (projects b)) ∅ /\
  (NoDup (repo <$> projects b) ->
   size (repos b') = length (projects b) /\
   forall p, p ∈ projects b ->
     repos b' !! repo p = Some ("https://github.com/" +:+ org p +:+ "/" +:+ repo p)) /\
  (forall k, is_Some (repos b' !! k) -> exists p, p ∈ projects b /\ repo p = k).
Proof.
  intros Hinit Hrun.
  destruct (init_fresh _ _ _ _ _ _ _ _ Hinit) as (Hdev & Hrepos & _).
  rewrite load_catalog_network in Hrun by done.
  apply for_each_load_exact in Hrun as (_ & _ & _ & Hlinks & _).
  rewrite Hrepos in Hlinks. split; [exact Hlinks|]. rewrite Hlinks. split.
  - intros Hnd. split.
    + rewrite link_all_size by by apply sorted_projects_NoDup.
      by rewrite sorted_perm.
    + intros p Hp. apply link_all_lookup; [by apply sorted_projects_NoDup|].
      by rewrite sorted_perm.
  - intros k Hk. apply link_all_dom in Hk as [Hk|(p & Hp & Hpk)].
    + rewrite lookup_empty in Hk. by destruct Hk.
    + exists p. split; [|done]. by rewrite sorted_perm in Hp.
Qed.

Lemma network_repo_links_witness :
  let E := serving (json_dumps_indent4 plain_descriptor) in
  exists b' w',
    load_catalog E (network_builder, empty_world) = (Ok tt, (b', w')) /\
    size (repos b') = 2 /\
    repos b' !! "Alpha" = Some "https://github.com/PSLmodels/Alpha".
Proof.
  intros E.
  destruct (load_catalog E (network_builder, empty_world)) as [r [b' w']] eqn:Hrun.
  assert (r = Ok tt) as ->.
  { apply (f_equal fst) in Hrun. vm_compute in Hrun. congruence. }
  exists b', w'. split; [reflexivity|].
  destruct (network_repo_links E empty_world (Some [zeta; Alpha]) (Some "/srv/out") None None
              network_builder empty_world b' w' eq_refl Hrun) as (_ & Hdistinct & _).
  destruct Hdistinct as [Hsize Hlinks].
  - repeat constructor; rewrite ?list_elem_of_In; simpl; intuition discriminate.
  - split; [exact Hsize|]. apply (Hlinks Alpha). apply list_elem_of_In. simpl. auto.
Defined.

(** X9. Where a run stops.  The projects are taken in sorted order and
    nothing is undone: when the projects before [p] in that order load
    and the descriptor of [p] cannot be fetched, [load_catalog] raises
    the exception of that fetch, and the catalog and the repo link
    table hold what the projects before [p] put there and nothing of [p]
    or of the projects after it. *)
Theorem load_catalog_stops_at E b w l1 p l2 e :
  develop b = false ->
  cat_shape (catalog b) ->
  sorted (fun x => str_upper (repo x)) (projects b) = l1 ++ p :: l2 ->
  Forall (project_loads E) l1 ->
  _get_from_github_api E (org p) (repo p) (branch p) "PSL_catalog.json" = Raise e ->
  exists b' w',
    load_catalog E (b, w) = (Raise e, (b', w')) /\
    cat_keys (catalog b') = foldl add_key (cat_keys (catalog b)) (repo <$> l1) /\
    repos b' = link_all l1 (repos b).
Proof.
  intros Hdev Hshape Hsorted Hl1 Hfetch.
  rewrite load_catalog_network, Hsorted, for_each_app by done.
  destruct (for_each_load_returns E l1 b w Hl1 Hshape) as (b1 & w1 & Hrun & _).
  rewrite Hrun. exists b1, w1. split.
  - cbn [for_each]. rewrite bind_run. unfold load_project at 1.
    rewrite bind_run, Hfetch. reflexivity.
  - split; [by apply for_each_load_ok in Hrun as [Hkeys _]|].
    by apply for_each_load_exact in Hrun as (_ & _ & _ & Hlinks & _).
Qed.

Lemma load_catalog_stops_at_witness :
  exists b' w',
    load_catalog only_alpha (network_builder, empty_world)
    = (Raise (FetchError "zeta"), (b', w')) /\
    cat_keys (catalog b') = ["Alpha"] /\
    repos b' = {[ "Alpha" := "https://github.com/PSLmodels/Alpha" ]}.
Proof.
  destruct (load_catalog_stops_at only_alpha network_builder empty_world [Alpha] zeta []
              (FetchError "zeta") eq_refl cat_shape_fresh)
    as (b' & w' & Hrun & Hkeys & Hrepos).
  - reflexivity.
  - repeat constructor. eexists. split; [vm_compute; reflexivity|].
    repeat constructor. eexists. vm_compute. reflexivity.
  - reflexivity.
  - exists b', w'. split; [exact Hrun|]. split; [exact Hkeys|].
    rewrite Hrepos. reflexivity.
Defined.

(** ** What a run keeps *)

Section keeps.
Context (R : relation (CatalogBuilder * world)) `{!PreOrder R}.

Lemma keeps_ret {A : Type} (a : A) : keeps R (mret a).
Proof. intros st r st' [= _ <-]. reflexivity. Qed.

Lemma keeps_lift {A : Type} (r : result A) : keeps R (lift r).
Proof. intros st r' st' [= _ <-]. reflexivity. Qed.

Lemma keeps_get_self : keeps R get_self.
Proof. intros st r st' [= _ <-]. reflexivity. Qed.

Lemma keeps_bind_returns {A B : Type} (P : A -> Prop) (m : M A) (f : A -> M B) :
  keeps R m -> returns P m -> (forall a, P a -> keeps R (f a)) -> keeps R (m ≫= f).
Proof.
  intros Hm HP Hf st r st'. rewrite bind_run.
  destruct (m st) as [[a|e] st1] eqn:Hrun.
  - intros Hrest. transitivity st1; [by eapply Hm|]. eapply Hf; [|exact Hrest].
    by eapply HP.
  - intros [= _ <-]. by eapply Hm.
Qed.

Lemma keeps_bind {A B : Type} (m : M A) (f : A -> M B) :
  keeps R m -> (forall a, keeps R (f a)) -> keeps R (m ≫= f).
Proof.
  intros Hm Hf. apply (keeps_bind_returns (fun _ => True)); [done|done|auto].
Qed.

Lemma keeps_for_each {A : Type} (xs : list A) (body : A -> M unit) :
  (forall x, x ∈ xs -> keeps R (body x)) -> keeps R (for_each xs body).
Proof.
  induction xs as [|x xs IH]; intros Hbody; cbn [for_each].
  - apply keeps_ret.
  - apply keeps_bind; [apply Hbody; constructor|]. intros _. apply IH.
    intros y Hy. apply Hbody. by constructor.
Qed.
End keeps.

#[local] Instance frame_preorder : PreOrder frame.
Proof.
  split.
  - intros st. repeat split. exists []. by rewrite app_nil_r.
  - intros st1 st2 st3 (H1 & H2 & H3 & H4 & out1 & H5) (H1' & H2' & H3' & H4' & out2 & H5').
    repeat split; try congruence. exists (out1 ++ out2). by rewrite H5', H5, app_assoc.
Qed.

#[local] Instance shaped_step_preorder : PreOrder shaped_step.
Proof.
  split.
  - intros st H. exact H.
  - intros st1 st2 st3 H12 H23 H. apply H23, H12, H.
Qed.

Lemma frame_print s : keeps frame (print s).
Proof. intros st r st' [= _ <-]. repeat split. by exists [s]. Qed.

Lemma frame_read_file path : keeps frame (read_file path).
Proof.
  intros st r st'. unfold read_file. destruct (files st.2 !! path); intros [= _ <-]; reflexivity.
Qed.

Lemma frame_set_catalog c : keeps frame (set_catalog c).
Proof. intros st r st' [= _ <-]. repeat split. exists []. by rewrite app_nil_r. Qed.

Lemma frame_set_repo k url : keeps frame (set_repo k url).
Proof. intros st r st' [= _ <-]. repeat split. exists []. by rewrite app_nil_r. Qed.

Lemma frame_set_attr r a v : keeps frame (set_attr r a v).
Proof.
  intros st res st'. unfold set_attr.
  destruct (cat_setitem (catalog st.1) r a v); [apply frame_set_catalog|].
  intros [= _ <-]. reflexivity.
Qed.

Lemma frame_resolve E p attr config : keeps frame (resolve E p attr config).
Proof.
  intros [b w] r st'.
  destruct (resolve_run E p attr config b w) as (out & -> & Hout). intros [= _ <-].
  repeat split. cbn [fst snd stdout].
  destruct Hout as [-> | ->]; [exists []; by rewrite app_nil_r|by eexists].
Qed.

Lemma frame_load_attrs E p items : keeps frame (load_attrs E p items).
Proof.
  induction items as [|[attr config] items IH]; cbn [load_attrs].
  - apply keeps_ret, _.
  - apply keeps_bind; [apply _|apply frame_resolve|]. intros v.
    apply keeps_bind; [apply _|apply frame_set_attr|]. intros _. exact IH.
Qed.

Lemma frame_load_project E p : keeps frame (load_project E p).
Proof.
  unfold load_project.
  apply keeps_bind; [apply _|apply keeps_lift, _|]. intros text.
  apply keeps_bind; [apply _|apply keeps_lift, _|]. intros cat_meta.
  apply keeps_bind; [apply _|apply frame_set_attr|]. intros _.
  apply keeps_bind; [apply _|apply frame_set_repo|]. intros _.
  apply keeps_bind; [apply _|apply keeps_lift, _|]. intros items.
  apply frame_load_attrs.
Qed.

Lemma frame_load_catalog E : keeps frame (load_catalog E).
Proof.
  unfold load_catalog.
  apply keeps_bind; [apply _|apply keeps_get_self, _|]. intros self.
  destruct (negb (develop self)).
  - apply keeps_for_each; [apply _|]. intros p _. apply frame_load_project.
  - apply keeps_bind; [apply _|apply frame_print|]. intros _.
    apply keeps_bind; [apply _|apply frame_read_file|]. intros text.
    apply keeps_bind; [apply _|apply keeps_lift, _|]. intros c.
    apply keeps_bind; [apply _|apply frame_set_catalog|]. intros _.
    apply keeps_bind; [apply _| |intros _; apply frame_print].
    apply keeps_for_each; [apply _|]. intros p _. apply frame_set_repo.
Qed.

Lemma load_catalog_frame_files E b w r b' w' :
  load_catalog E (b, w) = (r, (b', w')) -> files w' = files w.
Proof. intros Hrun. by destruct (frame_load_catalog E _ _ _ Hrun) as (_ & _ & _ & H & _). Qed.

(** X10. [load_catalog] writes no file and leaves the project list, the
    output directory and the mode of the builder as they are, in either
    mode and whether it returns or raises; what was printed before it is
    still there, followed by what it printed. *)
Theorem load_catalog_frame E b w r b' w' :
  load_catalog E (b, w) = (r, (b', w')) ->
  projects b' = projects b /\ index_dir b' = index_dir b /\ develop b' = develop b /\
  files w' = files w /\
  exists out, stdout w' = stdout w ++ out.
Proof. intros Hrun. exact (frame_load_catalog E _ _ _ Hrun). Qed.

Lemma load_catalog_frame_witness :
  let st := load_catalog offline (network_builder, registry_world [zeta] (JObj [])) in
  st.1 = Raise (FetchError "offline") /\
  files st.2.2 = files (registry_world [zeta] (JObj [])) /\
  projects st.2.1 = [zeta; Alpha].
Proof.
  intros st. split; [reflexivity|].
  destruct (load_catalog_frame offline network_builder (registry_world [zeta] (JObj []))
              st.1 st.2.1 st.2.2) as (Hps & _ & _ & Hfiles & _).
  - change (st = (st.1, (st.2.1, st.2.2))). clearbody st. by destruct st as [r [b' w']].
  - split; [exact Hfiles|exact Hps].
Defined.

(** ** Resolved attributes everywhere *)

Lemma name_attr_shape p : attr_shape (name_attr p).
Proof. exists (JStr ""), (JStr (repo p)). by right. Qed.

Lemma shaped_set_attr r a v : attr_shape v -> keeps shaped_step (set_attr r a v).
Proof.
  intros Hv [b w] res st'. rewrite set_attr_run.
  destruct (cat_setitem (catalog b) r a v) as [c|e] eqn:Hc; intros [= _ <-]; [|by intros ?].
  intros Hb r' a' x Hx. cbn [fst catalog with_catalog] in *.
  destruct (cat_setitem_lookup _ _ _ _ _ _ _ _ Hc Hx) as [-> | Hold]; [done|].
  by eapply Hb.
Qed.

Lemma shaped_same_builder {A : Type} (m : M A) :
  (forall b w r b' w', m (b, w) = (r, (b', w')) -> catalog b' = catalog b) ->
  keeps shaped_step m.
Proof.
  intros Hm [b w] r [b' w'] Hrun H. cbn [fst] in *. by rewrite (Hm _ _ _ _ _ Hrun).
Qed.

Lemma shaped_resolve E p attr config : keeps shaped_step (resolve E p attr config).
Proof.
  apply shaped_same_builder. intros b w r b' w' Hrun.
  by apply resolve_frame in Hrun as [-> _].
Qed.

Lemma returns_resolve E p attr config : returns attr_shape (resolve E p attr config).
Proof.
  intros [b w] v st'. destruct (resolve_run E p attr config b w) as (out & -> & _).
  intros [= Hv _]. destruct (resolve_value_fields _ _ _ _ Hv) as (s & x & ->).
  exists s, x. by left.
Qed.

Lemma shaped_load_attrs E p items : keeps shaped_step (load_attrs E p items).
Proof.
  induction items as [|[attr config] items IH]; cbn [load_attrs].
  - apply keeps_ret, _.
  - apply keeps_bind_returns with (P := attr_shape);
      [apply _|apply shaped_resolve|apply returns_resolve|].
    intros v Hv. apply keeps_bind; [apply _|by apply shaped_set_attr|]. intros _. exact IH.
Qed.

Lemma shaped_load_project E p : keeps shaped_step (load_project E p).
Proof.
  unfold load_project.
  apply keeps_bind; [apply _|apply keeps_lift, _|]. intros text.
  apply keeps_bind; [apply _|apply keeps_lift, _|]. intros cat_meta.
  apply keeps_bind; [apply _|apply shaped_set_attr, name_attr_shape|]. intros _.
  apply keeps_bind; [apply _| |].
  { apply shaped_same_builder. by intros b w r b' w' [= _ <- _]. }
  intros _. apply keeps_bind; [apply _|apply keeps_lift, _|]. intros items.
  apply shaped_load_attrs.
Qed.

(** X11. In network mode every attribute of every catalog entry is a
    dictionary with exactly the fields [source] and [value]: a run of
    [load_catalog] on a catalog of which this is true (the fresh one is)
    leaves one of which it is true, also when the run raises part of the
    way. *)
Theorem catalog_attrs_resolved E b w r b' w' :
  develop b = false ->
  cat_attrs_shaped (catalog b) ->
  load_catalog E (b, w) = (r, (b', w')) ->
  forall rp a v, cat_getitem (catalog b') rp a = Some v ->
    exists s x, v = JObj [("source", s); ("value", x)] \/
                v = JObj [("value", x); ("source", s)].
Proof.
  intros Hdev Hb Hrun rp a v Hv. rewrite load_catalog_network in Hrun by done.
  assert (keeps shaped_step
            (for_each (sorted (fun x => str_upper (repo x)) (projects b)) (load_project E)))
    as Hkeeps.
  { apply keeps_for_each; [apply _|]. intros p _. apply shaped_load_project. }
  exact (Hkeeps _ _ _ Hrun Hb rp a v Hv).
Qed.

Lemma catalog_attrs_resolved_witness :
  let E := serving (json_dumps_indent4 plain_descriptor) in
  let b' := (load_catalog E (network_builder, empty_world)).2.1 in
  exists v s x,
    cat_getitem (catalog b') "Alpha" "name" = Some v /\
    (v = JObj [("source", s); ("value", x)] \/ v = JObj [("value", x); ("source", s)]).
Proof.
  intros E b'.
  assert (cat_getitem (catalog b') "Alpha" "name" = Some (name_attr Alpha)) as Hv
    by (vm_compute; reflexivity).
  destruct (catalog_attrs_resolved E network_builder empty_world
              (load_catalog E (network_builder, empty_world)).1 b'
              (load_catalog E (network_builder, empty_world)).2.2 eq_refl)
    with (rp := "Alpha") (a := "name") (v := name_attr Alpha) as (s & x & Hshape).
  - intros r a v H. discriminate H.
  - unfold b'. by destruct (load_catalog E (network_builder, empty_world)) as [r [b1 w1]].
  - exact Hv.
  - exists (name_attr Alpha), s, x. split; [exact Hv|exact Hshape].
Defined.

(** ** [sorted] is stable *)

Lemma string_leb_refl s : String.leb s s = true.
Proof.
  unfold String.leb.
  assert (String.compare s s = Eq) as Hs.
  { induction s as [|c s IH]; [done|]. cbn [String.compare].
    unfold Ascii.compare. by rewrite N.compare_refl. }
  by rewrite Hs.
Qed.

Lemma insert_sorted_filter {A : Type} (key : A -> string) (k : string) x l :
  filter (fun y => key y = k) (insert_sorted key x l)
  = filter (fun y => key y = k) (x :: l).
Proof.
  induction l as [|y l IH]; cbn [insert_sorted]; [done|].
  destruct (String.leb (key x) (key y)) eqn:Hxy; [done|].
  rewrite filter_cons, IH, !filter_cons.
  destruct (decide (key y = k)) as [Hy|Hy]; [|done].
  destruct (decide (key x = k)) as [Hx|Hx]; [|done].
  rewrite Hx, <- Hy, string_leb_refl in Hxy. discriminate.
Qed.

(** X12. [sorted] keeps the input order of the elements that have the same
    key: projects whose names differ only in case are processed in the
    order of the project list. *)
Theorem sorted_stable {A : Type} (key : A -> string) (k : string) (l : list A) :
  filter (fun y => key y = k) (sorted key l) = filter (fun y => key y = k) l.
Proof.
  induction l as [|x l IH]; cbn [sorted]; [done|].
  by rewrite insert_sorted_filter, !filter_cons, IH.
Qed.

(** ** The registry file *)









(** X15. A builder that the constructor returns is fresh: its catalog and
    its repo link table are empty, its mode is the one asked for, and
    its output directory is the one given, or the parent of the module's
    directory when none, or an empty one, is given. *)
Theorem init_fresh_builder E w ps idx card dev bo b :
  __init__ E w ps idx card dev bo = Ok b ->
  catalog b = JObj [] /\ repos b = ∅ /\ develop b = dev /\
  index_dir b = match idx with
                | Some d => if decide (d = "") then path_join (CURRENT_PATH E) "../" else d
                | None => path_join (CURRENT_PATH E) "../"
                end /\
  (bo = None -> forall l, ps = Some l -> projects b = l).
Proof.
  unfold __init__. intros H.
  destruct (match ps with Some l => Ok l | None => load_register E w end) as [l0|] eqn:Hps;
    [|discriminate].
  destruct bo as [name|].
  - destruct (select_project name l0); [|discriminate]. injection H as <-.
    repeat split; done.
  - injection H as <-. repeat split; try done.
    intros _ l ->. by injection Hps as ->.
Qed.

Lemma init_fresh_builder_witness :
  exists b,
    __init__ offline empty_world (Some [zeta; Alpha]) (Some "") None true None = Ok b /\
    index_dir b = "/srv/Catalog/catalog_builder/../" /\ projects b = [zeta; Alpha] /\
    catalog b = JObj [].
Proof.
  destruct (__init__ offline empty_world (Some [zeta; Alpha]) (Some "") None true None)
    as [b|] eqn:Hinit; [|discriminate Hinit].
  destruct (init_fresh_builder offline empty_world (Some [zeta; Alpha]) (Some "") None true
              None b Hinit) as (Hcat & _ & _ & Hdir & Hps).
  exists b. split; [reflexivity|]. split; [exact Hdir|]. split; [|exact Hcat].
  by apply Hps.
Defined.

(** ** Replay mode without a usable file *)



(** ** Paths *)

Lemma path_join_relative d x :
  starts_with_sep x = false -> path_join d x = path_prefix d +:+ x.
Proof.
  intros Hx. unfold path_join, path_prefix. rewrite Hx.
  destruct (decide (d = "")); [done|].
  destruct (ends_with_sep d); [done|]. by rewrite append_assoc.
Qed.

Lemma path_join_inj d x y :
  starts_with_sep x = false -> starts_with_sep y = false ->
  path_join d x = path_join d y -> x = y.
Proof.
  intros Hx Hy. rewrite !path_join_relative by done.
  apply (inj (String.append (path_prefix d))).
Qed.

Lemma index_catalog_distinct b : index_path b <> catalog_path b.
Proof. intros H. by apply path_join_inj in H. Qed.




(** ** [write_pages] *)

Lemma write_pages_run E render b w :
  write_pages E render (b, w) =
  match render (template_path E) (catalog b) (repos b) with
  | Ok page => (Ok tt, (b, World (<[index_path b := page]> (files w)) (stdout w)))
  | Raise e => (Raise e, (b, w))
  end.
Proof.
  unfold write_pages. rewrite bind_run. unfold get_self. cbn [fst snd].
  rewrite bind_run. unfold lift. fold (template_path E).
  by destruct (render (template_path E) (catalog b) (repos b)).
Qed.



(** ** The whole program *)

Lemma main_run E render dev bo w cb :
  __init__ E w None None None dev bo = Ok cb ->
  main E render dev bo w =
  match load_catalog E (cb, w) with
  | (Ok _, (cb1, w1)) =>
      match render (template_path E) (catalog cb1) (repos cb1) with
      | Ok page =>
          (Ok cb1,
           World (<[catalog_path cb1 := json_dumps_indent4 (catalog cb1)]>
                    (<[index_path cb1 := page]> (files w1)))
                 (stdout w1))
      | Raise e => (Raise e, w1)
      end
  | (Raise e, (_, w1)) => (Raise e, w1)
  end.
Proof.
  intros Hinit. unfold main. rewrite Hinit, bind_run.
  destruct (load_catalog E (cb, w)) as [[[]|e] [cb1 w1]]; [|done].
  rewrite bind_run, write_pages_run.
  destruct (render (template_path E) (catalog cb1) (repos cb1)) as [page|e]; [|done].
  rewrite bind_run. unfold get_self. cbn [fst snd]. by rewrite dump_catalog_run.
Qed.

Lemma main_ok_inv E render dev bo w cb w' :
  main E render dev bo w = (Ok cb, w') ->
  exists cb0 w1 page,
    __init__ E w None None None dev bo = Ok cb0 /\
    load_catalog E (cb0, w) = (Ok tt, (cb, w1)) /\
    render (template_path E) (catalog cb) (repos cb) = Ok page /\
    w' = World (<[catalog_path cb := json_dumps_indent4 (catalog cb)]>
                  (<[index_path cb := page]> (files w1)))
               (stdout w1).
Proof.
  intros Hmain.
  destruct (__init__ E w None None None dev bo) as [cb0|e] eqn:Hinit.
  2: { unfold main in Hmain. by rewrite Hinit in Hmain. }
  rewrite (main_run _ _ _ _ _ _ Hinit) in Hmain.
  destruct (load_catalog E (cb0, w)) as [[[]|e] [cb1 w1]] eqn:Hload; [|done].
  destruct (render (template_path E) (catalog cb1) (repos cb1)) as [page|e] eqn:Hpage;
    [|done].
  injection Hmain as <- <-. by exists cb0, w1, page.
Qed.



(** X19. What a run of the program leaves.  When it returns, [catalog.json]
    in the output directory holds the JSON text of the catalog of the
    builder, [index.html] holds the page rendered from that catalog and
    the repo link table, and every other file is what it was. *)
Theorem main_outputs E render dev bo w cb w' :
  main E render dev bo w = (Ok cb, w') ->
  files w' !! catalog_path cb = Some (json_dumps_indent4 (catalog cb)) /\
  (exists page, render (template_path E) (catalog cb) (repos cb) = Ok page /\
                files w' !! index_path cb = Some page) /\
  forall path, path <> catalog_path cb -> path <> index_path cb ->
               files w' !! path = files w !! path.
Proof.
  intros Hmain.
  destruct (main_ok_inv _ _ _ _ _ _ _ Hmain) as (cb0 & w1 & page & _ & Hload & Hpage & ->).
  apply load_catalog_frame_files in Hload.
  cbn [files]. split; [apply lookup_insert_eq|]. split.
  - exists page. split; [exact Hpage|].
    rewrite lookup_insert_ne by (intros H; by apply (index_catalog_distinct cb)).
    apply lookup_insert_eq.
  - intros path Hc Hi. by rewrite !lookup_insert_ne, Hload.
Qed.

Lemma main_outputs_witness :
  let E := serving (json_dumps_indent4 plain_descriptor) in
  exists cb w',
    main E listing false None (registry_world [zeta; Alpha] (JObj [])) = (Ok cb, w') /\
    files w' !! "/srv/Catalog/catalog_builder/../index.html" = Some "Alpha,zeta" /\
    files w' !! "/srv/Catalog/catalog_builder/../catalog.json"
      = Some (json_dumps_indent4 (catalog cb)) /\
    files w' !! "/srv/Catalog/catalog_builder/../register.json"
      = Some (json_dumps_indent4 (json_of_projects [zeta; Alpha])).
Proof.
  intros E.
  destruct (main E listing false None (registry_world [zeta; Alpha] (JObj [])))
    as [r w'] eqn:Hmain.
  assert (exists cb, r = Ok cb /\ index_dir cb = "/srv/Catalog/catalog_builder/../" /\
                     cat_keys (catalog cb) = ["Alpha"; "zeta"]) as (cb & -> & Hdir & Hkeys).
  { apply (f_equal fst) in Hmain. vm_compute in Hmain. subst r.
    eexists. split; [reflexivity|]. split; reflexivity. }
  destruct (main_outputs E listing false None _ cb w' Hmain) as (Hcat & (page & Hpage & Hidx) & Hrest).
  unfold catalog_path, index_path in *. rewrite Hdir in *.
  exists cb, w'. split; [reflexivity|]. split; [|split].
  - etransitivity; [exact Hidx|]. f_equal. unfold listing in Hpage.
    rewrite Hkeys in Hpage. by injection Hpage as <-.
  - exact Hcat.
  - etransitivity; [apply Hrest; intros H; discriminate H|]. reflexivity.
Defined.

(** ** Running the program again *)











(** ** The text of a dump *)










